(** * AI code reviewer back end: the review service [generateContent]

    A shallow embedding of [BackEnd/src/services/ai.service.js].  The
    service validates its prompt, hands it to the generative model of the
    SDK, and reduces whatever the model answers to one display string
    through a chain of fallbacks.

    The model's answer is an untyped JavaScript value.  It is embedded as a
    value over a heap: primitives are immediate, objects and arrays live in
    a store and are reached through references, so that shared and circular
    structures exist in the model exactly as they do in the interpreter.

    Scope of the value model: data only.  Values are undefined, null,
    booleans, integer-valued numbers, strings, plain objects and dense
    arrays.  Callables, symbols, accessors and proxies are outside it, and
    so is anything that user code could hang on a built-in prototype.
    Strings are sequences of 8-bit characters. *)

From Stdlib Require Import ZArith Ascii String DecimalString.
From stdpp Require Import base option list strings gmap.

Local Open Scope string_scope.

(** ** Values and the heap *)

Definition loc := nat.

Inductive value : Type :=
| VUndef
| VNull
| VBool (b : bool)
| VNum (n : Z)
| VStr (s : string)
| VRef (l : loc).

(** An object carries its own enumerable properties in enumeration order;
    an array carries its elements.  The keys of an object of the
    interpreter are distinct; a read takes the first property of a name,
    and no property below depends on the keys being distinct. *)
Inductive object : Type :=
| JObject (props : list (string * value))
| JArray (elems : list value).

Abbreviation heap := (gmap loc object).

#[global] Instance value_eq_dec : EqDecision value.
Proof. solve_decision. Defined.

(** ** Completions

    [Normal] and [Throw] are the two ways a JavaScript evaluation ends.
    [Stuck] is not a JavaScript outcome: it marks a run that left the
    modelled fragment, by following a reference that the heap does not
    hold or by exhausting the recursion budget of the serializers.  The
    lemmas of the section on closed heaps show that it never arises on a
    heap that holds every reference it mentions. *)

Inductive exn : Type :=
| Error (message : string)
| TypeError_nullish (key : string)
| TypeError_cyclic
| Rejected (reason : string).

Inductive completion (A : Type) : Type :=
| Normal (a : A)
| Throw (e : exn)
| Stuck.

Arguments Normal {A} a.
Arguments Throw {A} e.
Arguments Stuck {A}.

#[global] Instance completion_ret : MRet completion := @Normal.

#[global] Instance completion_bind : MBind completion :=
  λ A B f m,
    match m with
    | Normal a => f a
    | Throw e => Throw e
    | Stuck => Stuck
    end.

(** [try { m } catch (e) { handler }] *)
Definition try_catch {A} (m : completion A) (handler : exn → completion A)
  : completion A :=
  match m with
  | Throw e => handler e
  | _ => m
  end.

(** ** Primitive operations of the language *)

Definition typeof (v : value) : string :=
  match v with
  | VUndef => "undefined"
  | VNull => "object"
  | VBool _ => "boolean"
  | VNum _ => "number"
  | VStr _ => "string"
  | VRef _ => "object"
  end.

(** ToBoolean, which [!v], [a && b] and [filter(Boolean)] apply. *)
Definition Boolean (v : value) : bool :=
  match v with
  | VUndef | VNull => false
  | VBool b => b
  | VNum n => negb (n =? 0)%Z
  | VStr s => negb (String.eqb s "")
  | VRef _ => true
  end.

Definition nullish (v : value) : bool :=
  match v with
  | VUndef | VNull => true
  | _ => false
  end.

Fixpoint lookup_prop (k : string) (props : list (string * value))
  : option value :=
  match props with
  | [] => None
  | (k', v) :: rest => if String.eqb k' k then Some v else lookup_prop k rest
  end.

(** [v.k] for a plain name [k] that no built-in prototype defines, which
    is the case of every name the service reads ([response], [candidates],
    [content], [parts], [text]).  Reading through null or undefined throws;
    a primitive or an array has no such property. *)
Definition Get (h : heap) (v : value) (k : string) : completion value :=
  match v with
  | VUndef | VNull => Throw (TypeError_nullish k)
  | VBool _ | VNum _ | VStr _ => Normal VUndef
  | VRef l =>
      match h !! l with
      | Some (JObject props) => Normal (default VUndef (lookup_prop k props))
      | Some (JArray _) => Normal VUndef
      | None => Stuck
      end
  end.

(** [v[0]]: the first element of an array, the property named 0 of an
    object, the first character of a string. *)
Definition GetIndex0 (h : heap) (v : value) : completion value :=
  match v with
  | VUndef | VNull => Throw (TypeError_nullish "0")
  | VBool _ | VNum _ => Normal VUndef
  | VStr s =>
      Normal match s with
             | String c _ => VStr (String c EmptyString)
             | EmptyString => VUndef
             end
  | VRef l =>
      match h !! l with
      | Some (JArray elems) => Normal (default VUndef (elems !! 0%nat))
      | Some (JObject props) => Normal (default VUndef (lookup_prop "0" props))
      | None => Stuck
      end
  end.

(** Optional chaining [v?.k]: undefined when [v] is null or undefined. *)
Definition optChain (v : value) (read : value → completion value)
  : completion value :=
  if nullish v then Normal VUndef else read v.

Definition Array_isArray (h : heap) (v : value) : completion bool :=
  match v with
  | VRef l =>
      match h !! l with
      | Some (JArray _) => Normal true
      | Some (JObject _) => Normal false
      | None => Stuck
      end
  | _ => Normal false
  end.

(** The elements of a value already known to be an array. *)
Definition elements (h : heap) (v : value) : completion (list value) :=
  match v with
  | VRef l =>
      match h !! l with
      | Some (JArray elems) => Normal elems
      | _ => Stuck
      end
  | _ => Stuck
  end.

(** [Array.prototype.join] on an array of strings. *)
Fixpoint join (sep : string) (l : list string) : string :=
  match l with
  | [] => ""
  | [s] => s
  | s :: rest => s +:+ sep +:+ join sep rest
  end.

(** Number to string, on the integers. *)
Definition Number_toString (n : Z) : string :=
  NilZero.string_of_int (Z.to_int n).

(** ** [JSON.stringify] *)

Definition dquote : ascii := ascii_of_nat 34.
Definition backslash : ascii := ascii_of_nat 92.

Definition hex_digit (n : nat) : ascii :=
  nth n (list_ascii_of_string "0123456789abcdef") "0"%char.

(** One character of QuoteJSONString: the two-character escapes, a
    four-digit unicode escape for the other control characters, and the
    character itself otherwise. *)
Definition quote_char (c : ascii) : string :=
  let n := nat_of_ascii c in
  if (n =? 8)%nat then "\b"
  else if (n =? 9)%nat then "\t"
  else if (n =? 10)%nat then "\n"
  else if (n =? 12)%nat then "\f"
  else if (n =? 13)%nat then "\r"
  else if (n =? 34)%nat then String backslash (String dquote "")
  else if (n =? 92)%nat then String backslash (String backslash "")
  else if (n <? 32)%nat then
    "\u00" +:+ String (hex_digit (n / 16)) (String (hex_digit (n mod 16)) "")
  else String c "".

Fixpoint quote_chars (s : string) : string :=
  match s with
  | EmptyString => ""
  | String c rest => quote_char c +:+ quote_chars rest
  end.

Definition QuoteJSONString (s : string) : string :=
  String dquote (quote_chars s +:+ String dquote "").

(** A member of a serialized object: the quoted key, a colon, the value. *)
Definition member (k : string) (strP : string) : string :=
  QuoteJSONString k +:+ ":" +:+ strP.

(** SerializeJSONProperty, with SerializeJSONObject and SerializeJSONArray
    inlined.  [stack] holds the objects being serialized, outermost last;
    meeting one of them again is the circular-structure TypeError.  The
    result [None] stands for undefined: such a property is left out of an
    object and written as null in an array.  [fuel] bounds the nesting. *)
Fixpoint SerializeJSONProperty (h : heap) (fuel : nat) (stack : list loc)
    (v : value) {struct fuel} : completion (option string) :=
  match v with
  | VUndef => Normal None
  | VNull => Normal (Some "null")
  | VBool b => Normal (Some (if b then "true" else "false"))
  | VNum n => Normal (Some (Number_toString n))
  | VStr s => Normal (Some (QuoteJSONString s))
  | VRef l =>
      if decide (l ∈ stack) then Throw TypeError_cyclic
      else
        match fuel with
        | O => Stuck
        | S fuel' =>
            match h !! l with
            | None => Stuck
            | Some (JArray elems) =>
                partial ← mapM
                  (λ e, strP ← SerializeJSONProperty h fuel' (l :: stack) e;
                        mret (default "null" strP))
                  elems;
                mret (Some ("[" +:+ join "," partial +:+ "]"))
            | Some (JObject props) =>
                partial ← mapM
                  (λ kv, strP ← SerializeJSONProperty h fuel' (l :: stack) kv.2;
                         mret (member kv.1 <$> (strP : option string)))
                  props;
                mret (Some ("{" +:+ join "," (omap id partial) +:+ "}"))
            end
        end
  end.

(** [JSON.stringify(v)]: a string, or undefined when [v] is undefined.  No
    chain of distinct objects is longer than the heap, so its size is
    budget enough. *)
Definition JSON_stringify (h : heap) (v : value) : completion value :=
  strP ← SerializeJSONProperty h (S (size h)) [] v;
  mret (from_option VStr VUndef strP).

(** ** [String(v)]

    An object converts through [Object.prototype.toString], an array
    through [Array.prototype.join] with a comma.  [join] writes nothing
    for an undefined or null element, and nothing for an array that is
    already being joined: that is how the interpreter ends the recursion
    on a circular array.  [stack] holds the arrays being joined. *)
Fixpoint ToString (h : heap) (fuel : nat) (stack : list loc) (v : value)
    {struct fuel} : completion string :=
  match v with
  | VUndef => Normal "undefined"
  | VNull => Normal "null"
  | VBool b => Normal (if b then "true" else "false")
  | VNum n => Normal (Number_toString n)
  | VStr s => Normal s
  | VRef l =>
      match h !! l with
      | None => Stuck
      | Some (JObject _) => Normal "[object Object]"
      | Some (JArray elems) =>
          if decide (l ∈ stack) then Normal ""
          else
            match fuel with
            | O => Stuck
            | S fuel' =>
                pieces ← mapM
                  (λ e, if nullish e then mret ""
                        else ToString h fuel' (l :: stack) e)
                  elems;
                mret (join "," pieces)
            end
      end
  end.

Definition String_ (h : heap) (v : value) : completion value :=
  s ← ToString h (S (size h)) [] v;
  mret (VStr s).

(** ** The service

    Lines 89 to 111 of [generateContent] reduce the answer of the model to
    one value; they are embedded as [normalize], step by step, with the
    names of the source. *)

(** [const candidate = result?.response?.candidates?.[0]] *)
Definition firstCandidate (h : heap) (result : value) : completion value :=
  response ← optChain result (λ r, Get h r "response");
  candidates ← optChain response (λ r, Get h r "candidates");
  optChain candidates (GetIndex0 h).

(** [(p) => (p && typeof p.text === 'string' ? p.text : '')] *)
Definition partText (h : heap) (p : value) : completion string :=
  if Boolean p then
    text ← Get h p "text";
    mret match text with
         | VStr s => s
         | _ => ""
         end
  else mret "".

(** [elems.map(partText).filter(Boolean)], the [texts] of line 95. *)
Definition textsOf (h : heap) (elems : list value)
  : completion (list string) :=
  mapped ← mapM (partText h) elems;
  mret (filter (λ s, Boolean (VStr s)) mapped).

(** The primary path, lines 92 to 97: the value of [extracted] after it. *)
Definition primary (h : heap) (content : value) : completion value :=
  parts ← optChain content (λ c, Get h c "parts");
  isArray ← Array_isArray h parts;
  if Boolean parts && isArray then
    elems ← elements h parts;
    texts ← textsOf h elems;
    if decide (0 < length texts) then mret (VStr (join "" texts))
    else mret VNull
  else mret VNull.

(** The secondary path, line 100. *)
Definition secondary (h : heap) (result extracted : value)
  : completion value :=
  if Boolean extracted then mret extracted
  else
    response ← optChain result (λ r, Get h r "response");
    if decide (typeof response = "string") then Get h result "response"
    else mret extracted.

(** The argument of the serializer, [candidate ?? result.response ?? result]. *)
Definition fragment (h : heap) (result candidate : value)
  : completion value :=
  if nullish candidate then
    response ← Get h result "response";
    mret (if nullish response then result else response)
  else mret candidate.

(** The last resort, lines 103 to 111. *)
Definition fallback (h : heap) (result candidate extracted : value)
  : completion value :=
  if Boolean extracted then mret extracted
  else
    try_catch (arg ← fragment h result candidate; JSON_stringify h arg)
              (λ _, String_ h result).

Definition normalize (h : heap) (result : value) : completion value :=
  candidate ← firstCandidate h result;
  content ← optChain candidate (λ c, Get h c "content");
  extracted ← primary h content;
  extracted ← secondary h result extracted;
  fallback h result candidate extracted.

(** What the service does to the outside: a call of the model, a line on
    the console. *)
Inductive event : Type :=
| ModelCall (request : value)
| ConsoleLog (line : value).

Definition MissingInput : exn :=
  Error "generateContent requires a non-empty string prompt".

(** The guard of line 80, [!prompt || typeof prompt !== 'string']. *)
Definition invalid (prompt : value) : bool :=
  negb (Boolean prompt) || negb (bool_decide (typeof prompt = "string")).

Section Service.

(** [model.generateContent] of the SDK: it resolves to a result, given
    with the heap it lives in, or it rejects. *)
Variable model_generateContent : value → completion (heap * value).

(** A run of [generateContent]: the events in order, and how it ends. *)
Definition generateContent (prompt : value) : list event * completion value :=
  if invalid prompt then ([], Throw MissingInput)
  else
    match model_generateContent prompt with
    | Normal (h, result) =>
        match normalize h result with
        | Normal extracted =>
            ([ModelCall prompt; ConsoleLog extracted], Normal extracted)
        | Throw e => ([ModelCall prompt], Throw e)
        | Stuck => ([ModelCall prompt], Stuck)
        end
    | Throw e => ([ModelCall prompt], Throw e)
    | Stuck => ([ModelCall prompt], Stuck)
    end.

End Service.

(** ** Closed heaps *)

Definition value_in (h : heap) (v : value) : Prop :=
  match v with
  | VRef l => is_Some (h !! l)
  | _ => True
  end.

#[global] Instance value_in_dec h v : Decision (value_in h v).
Proof. destruct v; simpl; apply _. Defined.

Definition children (o : object) : list value :=
  match o with
  | JObject props => props.*2
  | JArray elems => elems
  end.

(** Every reference held by an object of the heap is in the heap. *)
Definition heap_closed (h : heap) : Prop :=
  map_Forall (λ _ o, Forall (value_in h) (children o)) h.

#[global] Instance heap_closed_dec h : Decision (heap_closed h).
Proof. unfold heap_closed. apply _. Defined.

(** A well-formed answer: a closed heap, and a value inside it. *)
Definition well_formed (h : heap) (v : value) : Prop :=
  heap_closed h ∧ value_in h v.

#[global] Instance well_formed_dec h v : Decision (well_formed h v).
Proof. unfold well_formed. apply _. Defined.

(** Closedness of a concrete heap is settled by evaluation. *)
Ltac by_evaluation := apply (bool_decide_unpack _); vm_compute; exact I.

(** ** Notions used to state the properties *)

(** The text of a part, when the part is an object whose [text] property
    is a string. *)
Definition textOf (h : heap) (p : value) : option string :=
  match p with
  | VRef l =>
      match h !! l with
      | Some (JObject props) =>
          match lookup_prop "text" props with
          | Some (VStr s) => Some s
          | _ => None
          end
      | _ => None
      end
  | _ => None
  end.

(** The non-empty texts of the parts, in order: what [textsOf] computes on
    a closed heap, as [textsOf_closed] shows. *)
Definition nonempty_texts (h : heap) (parts : list value) : list string :=
  filter (λ s, Boolean (VStr s)) ((λ p, default "" (textOf h p)) <$> parts).

(** The parts array that the primary path reads, when there is one:
    [result?.response?.candidates?.[0]?.content?.parts], an array. *)
Definition candidateParts (h : heap) (result : value)
  : option (list value) :=
  match
    candidate ← firstCandidate h result;
    content ← optChain candidate (λ c, Get h c "content");
    optChain content (λ c, Get h c "parts")
  with
  | Normal (VRef l) =>
      match h !! l with
      | Some (JArray parts) => Some parts
      | _ => None
      end
  | _ => None
  end.

(** The three ways SerializeJSONProperty ends: undefined for undefined, a
    non-empty text, or the TypeError of a circular structure. *)
Definition serialized (v : value) (r : completion (option string)) : Prop :=
  (v = VUndef ∧ r = Normal None)
  ∨ (∃ s, s ≠ "" ∧ v ≠ VUndef ∧ r = Normal (Some s))
  ∨ (∃ l, v = VRef l ∧ r = Throw TypeError_cyclic).

(** The requests that a run hands to the model, in order. *)
Definition modelCalls (trace : list event) : list value :=
  omap (λ e, match e with
             | ModelCall request => Some request
             | ConsoleLog _ => None
             end) trace.

(** Modelled from the spec: the controller that takes the prompt out of
    the request body is not among the sources.  Section 6 of the
    specification gives the body as an object with a [code] property; the
    prompt is the value of that property, undefined when it is absent. *)
Definition requestCode (h : heap) (body : value) : completion value :=
  Get h body "code".

(** White space: space, tab, line feed, carriage return. *)
Definition whitespace (c : ascii) : bool :=
  bool_decide (nat_of_ascii c ∈ [32; 9; 10; 13]%nat).

(** ** Sample answers *)

(** [{ response: { candidates: [ { content: { parts: ps } } ] } }], the
    objects of the parts being given by [part_objs]. *)
Definition answer_heap (parts : list value) (part_objs : list (loc * object))
  : heap :=
  list_to_map part_objs ∪
  {[ 0%nat := JObject [("response", VRef 1)];
     1%nat := JObject [("candidates", VRef 2)];
     2%nat := JArray [VRef 3];
     3%nat := JObject [("content", VRef 4)];
     4%nat := JObject [("parts", VRef 5)];
     5%nat := JArray parts ]}.

Definition looks_good : heap :=
  answer_heap [VRef 10; VRef 11; VRef 12]
    [(10%nat, JObject [("text", VStr "Looks ")]);
     (11%nat, JObject [("other", VNum 1)]);
     (12%nat, JObject [("text", VStr "good.")])].

Definition empty_text : heap :=
  answer_heap [VRef 10] [(10%nat, JObject [("text", VStr "")])].

Definition self_array : heap := {[ 0%nat := JArray [VRef 0] ]}.
Definition self_object : heap := {[ 0%nat := JObject [("self", VRef 0)] ]}.
Definition plain_text : heap :=
  {[ 0%nat := JObject [("response", VStr "plain text")] ]}.
Definition empty_response : heap :=
  {[ 0%nat := JObject [("response", VStr "")] ]}.

(** An answer blocked upstream: a candidate without content. *)
Definition blocked : heap :=
  {[ 0%nat := JObject [("response", VRef 1)];
     1%nat := JObject [("candidates", VRef 2)];
     2%nat := JArray [VRef 3];
     3%nat := JObject [("finishReason", VStr "SAFETY")] ]}.

(** Parts of every malformed kind around one well-formed part. *)
Definition ragged : heap :=
  answer_heap
    [VNull; VUndef; VNum 7; VStr "text"; VRef 10; VRef 11; VRef 12; VRef 5]
    [(10%nat, JObject [("text", VNum 5)]);
     (11%nat, JObject []);
     (12%nat, JObject [("text", VStr "ok")])].

(** Two models: one that answers, one that rejects. *)
Definition sdk_answers : value → completion (heap * value) :=
  λ _, Normal (looks_good, VRef 0).

Definition sdk_rejects : value → completion (heap * value) :=
  λ _, Throw (Rejected "quota").

(** ** [JSON.stringify(v, null, space)]

    The serializer with a gap.  Each nesting level adds [gap] to the
    indentation; the members of a non-empty object or array go on lines
    of their own, and a space follows the colon of a member.  With the
    empty gap the text is the compact one. *)

Definition newline : string := String (ascii_of_nat 10) "".

Definition member_gap (gap k strP : string) : string :=
  QuoteJSONString k +:+ ":" +:+ (if decide (gap = "") then "" else " ")
  +:+ strP.

(** The text of an object or array from the texts of its members. *)
Definition wrap (gap opening closing stepback indent : string)
    (partial : list string) : string :=
  match partial with
  | [] => opening +:+ closing
  | _ =>
      if decide (gap = "") then opening +:+ join "," partial +:+ closing
      else
        opening +:+ newline +:+ indent
        +:+ join ("," +:+ newline +:+ indent) partial
        +:+ newline +:+ stepback +:+ closing
  end.

Fixpoint SerializeJSONProperty_gap (h : heap) (gap : string) (fuel : nat)
    (stack : list loc) (indent : string) (v : value) {struct fuel}
  : completion (option string) :=
  match v with
  | VUndef => Normal None
  | VNull => Normal (Some "null")
  | VBool b => Normal (Some (if b then "true" else "false"))
  | VNum n => Normal (Some (Number_toString n))
  | VStr s => Normal (Some (QuoteJSONString s))
  | VRef l =>
      if decide (l ∈ stack) then Throw TypeError_cyclic
      else
        match fuel with
        | O => Stuck
        | S fuel' =>
            let stepback := indent in
            let indent := indent +:+ gap in
            match h !! l with
            | None => Stuck
            | Some (JArray elems) =>
                partial ← mapM
                  (λ e, strP ← SerializeJSONProperty_gap h gap fuel'
                                 (l :: stack) indent e;
                        mret (default "null" strP))
                  elems;
                mret (Some (wrap gap "[" "]" stepback indent partial))
            | Some (JObject props) =>
                partial ← mapM
                  (λ kv, strP ← SerializeJSONProperty_gap h gap fuel'
                                  (l :: stack) indent kv.2;
                         mret (member_gap gap kv.1 <$> (strP : option string)))
                  props;
                mret (Some (wrap gap "{" "}" stepback indent
                              (omap id partial)))
            end
        end
  end.

(** A numeric [space] stands for that many spaces, ten at most. *)
Definition gap_of_space (space : nat) : string :=
  string_of_list_ascii (replicate (space `min` 10) " "%char).

Definition JSON_stringify_space (h : heap) (v : value) (space : nat)
  : completion value :=
  strP ← SerializeJSONProperty_gap h (gap_of_space space) (S (size h)) [] "" v;
  mret (from_option VStr VUndef strP).

(** ** The front end: [reviewCode] of the [App] component

    The component keeps [code], [review] and [loading]; [reviewCode]
    posts the code and stores what comes back.  A run is the sequence of
    its calls of the state setters, of the HTTP client and of the
    console. *)

Inductive ui_event : Type :=
| SetLoading (b : bool)
| SetReview (v : value)
| AxiosPost (url : string) (data : list (string * value))
| ConsoleError (label : string) (err : exn).

Definition review_url : string := "http://localhost:3000/ai/get-review".

Definition review_failed : string :=
  "Error: Failed to fetch review. Check the console for details.".

(** [response?.data?.response ?? response?.data ?? ''], line 29. *)
Definition reviewText (h : heap) (response : value) : completion value :=
  data ← optChain response (λ r, Get h r "data");
  inner ← optChain data (λ d, Get h d "response");
  mret (if nullish inner
        then if nullish data then VStr "" else data
        else inner).

(** [typeof text === 'string' ? text : JSON.stringify(text, null, 2)],
    the argument of [setReview] at line 31. *)
Definition rendered (h : heap) (text : value) : completion value :=
  if decide (typeof text = "string") then mret text
  else JSON_stringify_space h text 2.

Section FrontEnd.

(** [axios.post]: it resolves to a response object, given with the heap
    it lives in, or it rejects. *)
Variable axios_post :
  string → list (string * value) → completion (heap * value).

(** The body of the [try], lines 27 to 31, up to the call of
    [setReview]. *)
Definition fetchReview (code : string) : completion value :=
  reply ← axios_post review_url [("code", VStr code)];
  text ← reviewText reply.1 reply.2;
  rendered reply.1 text.

(** A run of [reviewCode], lines 24 to 38. *)
Definition reviewCode (code : string) : list ui_event * completion unit :=
  let request := AxiosPost review_url [("code", VStr code)] in
  match fetchReview code with
  | Normal v =>
      ([SetLoading true; request; SetReview v; SetLoading false], Normal tt)
  | Throw err =>
      ([SetLoading true; request;
        ConsoleError "Failed to fetch review:" err;
        SetReview (VStr review_failed); SetLoading false], Normal tt)
  | Stuck => ([SetLoading true; request], Stuck)
  end.

End FrontEnd.

(** The values given to [setReview] and to [setLoading], in order. *)
Definition reviews (trace : list ui_event) : list value :=
  omap (λ e, match e with SetReview v => Some v | _ => None end) trace.

Definition loadings (trace : list ui_event) : list bool :=
  omap (λ e, match e with SetLoading b => Some b | _ => None end) trace.

Definition consoleErrors (trace : list ui_event) : list exn :=
  omap (λ e, match e with ConsoleError _ err => Some err | _ => None end)
       trace.

(** What the HTTP client may do: reject, or resolve to a well-formed
    response. *)
Definition reply_ok (reply : completion (heap * value)) : Prop :=
  match reply with
  | Normal (h, response) => well_formed h response
  | Throw _ => True
  | Stuck => False
  end.

(** ** The controller, as the README of the back end gives it

    [getResponse] reads the prompt off the query, answers 400 when it is
    missing, and otherwise sends what the service returns. *)

Record http_response : Type :=
  { status : nat; body : list (string * value) }.

Inductive controller_event : Type :=
| Service (e : event)
| Respond (r : http_response).

Definition prompt_required : http_response :=
  {| status := 400; body := [("error", VStr "Prompt is required")] |}.

Section Controller.

Variable model_generateContent : value → completion (heap * value).

(** A run of [getResponse] on the value of [req.query.prompt]. *)
Definition getResponse (prompt : value)
  : list controller_event * completion unit :=
  if negb (Boolean prompt) then ([Respond prompt_required], Normal tt)
  else
    let run := generateContent model_generateContent prompt in
    match run.2 with
    | Normal response =>
        ((Service <$> run.1)
           ++ [Respond {| status := 200; body := [("response", response)] |}],
         Normal tt)%list
    | Throw e => (Service <$> run.1, Throw e)
    | Stuck => (Service <$> run.1, Stuck)
    end.

End Controller.

(** The responses of a run, and the calls of the model in it. *)
Definition responses (trace : list controller_event) : list http_response :=
  omap (λ e, match e with Respond r => Some r | _ => None end) trace.

Definition serviceEvents (trace : list controller_event) : list event :=
  omap (λ e, match e with Service e => Some e | _ => None end) trace.

(** ** Reference cycles *)



(** More sample answers. *)

(** A response object of the HTTP client around the body
    [{ response: review }]. *)
Definition reply_with (review : value) : heap :=
  {[ 0%nat := JObject [("data", VRef 1); ("status", VNum 200)];
     1%nat := JObject [("response", review)] ]}.

(** A response whose body is the bare value [data]. *)
Definition reply_bare (data : value) : heap :=
  {[ 0%nat := JObject [("data", data); ("status", VNum 200)] ]}.

(** A body that holds itself. *)
Definition reply_circular : heap :=
  {[ 0%nat := JObject [("data", VRef 1)];
     1%nat := JObject [("response", VRef 2)];
     2%nat := JArray [VRef 2] ]}.

(** [parts] is there and holds no text. *)
Definition no_parts : heap := answer_heap [] [].

(** * Properties *)

(** ** Completions and [mapM] *)

Lemma bind_Normal {A B} (f : A → completion B) (m : completion A) a :
  m = Normal a → (m ≫= f) = f a.
Proof. by intros ->. Qed.

(** When every element either succeeds or fails with the one exception
    [e0], so does the traversal. *)
Lemma mapM_Normal_or_Throw {A B} (f : A → completion B) e0 (l : list A) :
  Forall (λ x, (∃ y, f x = Normal y) ∨ f x = Throw e0) l →
  (∃ ys, mapM f l = Normal ys ∧ Forall2 (λ x y, f x = Normal y) l ys)
  ∨ mapM f l = Throw e0.
Proof.
  induction 1 as [|x l [[y Hy]|Hx] _ IH]; simpl.
  - left. exists []. by split.
  - rewrite Hy. simpl. destruct IH as [(ys & IH & Hall)|IH]; rewrite IH; simpl.
    + left. exists (y :: ys). split; [done|]. by constructor.
    + by right.
  - rewrite Hx. by right.
Qed.

Lemma mapM_Normal {A B} (f : A → completion B) (l : list A) :
  Forall (λ x, ∃ y, f x = Normal y) l →
  ∃ ys, mapM f l = Normal ys ∧ Forall2 (λ x y, f x = Normal y) l ys.
Proof.
  induction 1 as [|x l [y Hy] _ (ys & IH & Hall)]; simpl.
  - exists []. by split.
  - rewrite Hy, IH. simpl. exists (y :: ys). split; [done|]. by constructor.
Qed.

(** ** Strings *)

Lemma append_nonempty_l (s t : string) : s ≠ "" → s +:+ t ≠ "".
Proof. by destruct s. Qed.

Lemma String_eqb_empty (s : string) : negb (String.eqb s "") = true ↔ s ≠ "".
Proof. destruct s; simpl; split; try done. Qed.

Lemma Number_toString_nonempty n : Number_toString n ≠ "".
Proof.
  unfold Number_toString.
  destruct (Z.to_int n) as [d|d]; simpl; [|done].
  unfold NilZero.string_of_uint. by destruct d.
Qed.

Lemma QuoteJSONString_nonempty s : QuoteJSONString s ≠ "".
Proof. done. Qed.

Lemma append_empty_r (s : string) : s +:+ "" = s.
Proof.
  induction s as [|c s IH]; [done|].
  change (String c (s +:+ "") = String c s). by rewrite IH.
Qed.

(** Joining with the empty separator is plain concatenation. *)
Lemma join_empty_sep (l : list string) : join "" l = foldr append "" l.
Proof.
  induction l as [|s [|t l] IH]; simpl in *.
  - done.
  - by rewrite append_empty_r.
  - by rewrite <- IH.
Qed.

Lemma join_nonempty sep (l : list string) :
  Forall (λ s, s ≠ "") l → l ≠ [] → join sep l ≠ "".
Proof.
  destruct 1 as [|s [|t l] Hs _]; simpl; try done.
  intros _. by apply append_nonempty_l.
Qed.

(** ** Reading inside a closed heap *)

Lemma lookup_prop_elem k props v :
  lookup_prop k props = Some v → v ∈ props.*2.
Proof.
  induction props as [|[k' v'] props IH]; simpl; [done|].
  destruct (String.eqb k' k).
  - intros [= ->]. left.
  - intros H. right. by apply IH.
Qed.

Lemma heap_closed_children h l o v :
  heap_closed h → h !! l = Some o → v ∈ children o → value_in h v.
Proof.
  intros Hc Hl Hv. specialize (Hc l o Hl). simpl in Hc.
  by eapply Forall_forall in Hc.
Qed.

Lemma Get_closed h v k :
  heap_closed h → value_in h v → nullish v = false →
  ∃ w, Get h v k = Normal w ∧ value_in h w.
Proof.
  intros Hc Hv Hn. destruct v as [| |b|n|s|l]; simpl in *; try done;
    try (by exists VUndef).
  destruct Hv as [[props|elems] Hl]; rewrite Hl; [|by exists VUndef].
  destruct (lookup_prop k props) as [w|] eqn:Hk; simpl; [|by exists VUndef].
  exists w. split; [done|].
  eapply heap_closed_children; [done..|]. by eapply lookup_prop_elem.
Qed.

Lemma GetIndex0_closed h v :
  heap_closed h → value_in h v → nullish v = false →
  ∃ w, GetIndex0 h v = Normal w ∧ value_in h w.
Proof.
  intros Hc Hv Hn. destruct v as [| |b|n|s|l]; simpl in *; try done;
    try (by exists VUndef).
  - destruct s; eexists; by split.
  - destruct Hv as [[props|elems] Hl]; rewrite Hl.
    + destruct (lookup_prop "0" props) as [w|] eqn:Hk; simpl;
        [|by exists VUndef].
      exists w. split; [done|].
      eapply heap_closed_children; [done..|]. by eapply lookup_prop_elem.
    + destruct elems as [|w elems]; simpl; [by exists VUndef|].
      exists w. split; [done|].
      eapply heap_closed_children; [done..|]. simpl. left.
Qed.

Lemma optChain_closed h v read :
  (nullish v = false → ∃ w, read v = Normal w ∧ value_in h w) →
  ∃ w, optChain v read = Normal w ∧ value_in h w.
Proof.
  unfold optChain. destruct (nullish v); [|by auto].
  intros _. by exists VUndef.
Qed.

Lemma optGet_closed h v k :
  heap_closed h → value_in h v →
  ∃ w, optChain v (λ r, Get h r k) = Normal w ∧ value_in h w.
Proof. intros. apply optChain_closed. by apply Get_closed. Qed.

Lemma firstCandidate_closed h result :
  well_formed h result →
  ∃ candidate, firstCandidate h result = Normal candidate
               ∧ value_in h candidate.
Proof.
  intros [Hc Hv]. unfold firstCandidate.
  destruct (optGet_closed h result "response" Hc Hv) as (r & -> & Hr).
  simpl.
  destruct (optGet_closed h r "candidates" Hc Hr) as (c & -> & Hcs).
  simpl. apply optChain_closed. by apply GetIndex0_closed.
Qed.

Lemma Array_isArray_closed h v :
  value_in h v → ∃ b, Array_isArray h v = Normal b.
Proof.
  destruct v; simpl; try by eexists.
  intros [[?|?] ->]; by eexists.
Qed.

Lemma Array_isArray_true h v :
  Array_isArray h v = Normal true ↔
  ∃ l elems, v = VRef l ∧ h !! l = Some (JArray elems).
Proof.
  split.
  - destruct v as [| |b|n|s|l]; simpl; try done.
    destruct (h !! l) as [[?|elems]|] eqn:Hl; try done. by exists l, elems.
  - intros (l & elems & -> & Hl). simpl. by rewrite Hl.
Qed.

(** ** The primary path *)

Lemma partText_textOf h p :
  value_in h p → partText h p = Normal (default "" (textOf h p)).
Proof.
  destruct p as [| |b|n|s|l]; simpl; try done.
  - unfold partText. by destruct (Boolean _).
  - unfold partText. by destruct (Boolean _).
  - unfold partText. by destruct (Boolean _).
  - intros [[props|elems] Hl]; unfold partText; simpl; rewrite Hl; [|done].
    destruct (lookup_prop "text" props) as [[]|]; done.
Qed.

Lemma mapM_partText h parts :
  Forall (value_in h) parts →
  mapM (partText h) parts = Normal ((λ p, default "" (textOf h p)) <$> parts).
Proof.
  induction 1 as [|p parts Hp _ IH]; simpl; [done|].
  by rewrite (partText_textOf h p Hp), IH.
Qed.

(** Dropping the empty strings does not change the concatenation. *)
Lemma foldr_append_filter (l : list string) :
  foldr append "" (filter (λ s, Boolean (VStr s)) l) = foldr append "" l.
Proof.
  induction l as [|s l IH]; [done|].
  rewrite filter_cons. destruct (decide _) as [Hs|Hs]; simpl in *.
  - by rewrite IH.
  - rewrite IH. destruct s; [done|]. by destruct Hs.
Qed.

(** Nor does counting a part without a string text as the empty string. *)
Lemma foldr_append_default_omap {A} (f : A → option string) (l : list A) :
  foldr append "" ((λ x, default "" (f x)) <$> l) = foldr append "" (omap f l).
Proof.
  induction l as [|x l IH]; [done|].
  rewrite fmap_cons. cbn [foldr]. rewrite IH.
  change (omap f (x :: l))
    with (match f x with Some y => y :: omap f l | None => omap f l end).
  by destruct (f x).
Qed.

Lemma nonempty_texts_nonempty h parts : Forall (λ s, s ≠ "") (nonempty_texts h parts).
Proof.
  unfold nonempty_texts. apply Forall_forall. intros s [Hs _]%list_elem_of_filter.
  simpl in Hs. intros ->. done.
Qed.

Lemma join_texts h parts :
  join "" (nonempty_texts h parts) = foldr append "" (omap (textOf h) parts).
Proof.
  unfold nonempty_texts.
  by rewrite join_empty_sep, foldr_append_filter, foldr_append_default_omap.
Qed.

Lemma textsOf_closed h parts :
  Forall (value_in h) parts →
  textsOf h parts = Normal (nonempty_texts h parts).
Proof. intros Hall. unfold textsOf. by rewrite mapM_partText. Qed.

(** [textsOf], one part at a time. *)
Lemma textsOf_cons h p parts :
  textsOf h (p :: parts)
  = (s ← partText h p; ts ← textsOf h parts;
     mret (if Boolean (VStr s) then s :: ts else ts)).
Proof.
  unfold textsOf. simpl. destruct (partText h p) as [s| |]; simpl; try done.
  destruct (mapM (partText h) parts) as [ys| |]; simpl; try done.
  rewrite filter_cons. simpl. by destruct (decide _), (negb _).
Qed.

(** A part that maps to the empty string leaves no trace in [texts]. *)
Lemma textsOf_skip h p ps qs :
  partText h p = Normal "" →
  textsOf h (ps ++ p :: qs)%list = textsOf h (ps ++ qs)%list.
Proof.
  intros Hp. induction ps as [|x ps IH]; simpl.
  - rewrite textsOf_cons, Hp. simpl. by destruct (textsOf h qs).
  - by rewrite !textsOf_cons, IH.
Qed.

(** What the primary path computes on a parts array. *)
Lemma primary_array h content l parts :
  heap_closed h →
  Get h content "parts" = Normal (VRef l) →
  h !! l = Some (JArray parts) →
  primary h content =
    Normal (if decide (0 < length (nonempty_texts h parts))
            then VStr (join "" (nonempty_texts h parts)) else VNull).
Proof.
  intros Hc Hget Hl. unfold primary, optChain.
  destruct (nullish content) eqn:Hn; [by destruct content|].
  rewrite Hget. simpl. rewrite Hl. simpl.
  rewrite textsOf_closed; [|by apply (Hc l _ Hl)].
  simpl. by destruct (decide _).
Qed.

(** And on anything else. *)
Lemma primary_not_array h content parts :
  optChain content (λ c, Get h c "parts") = Normal parts →
  Array_isArray h parts = Normal false →
  primary h content = Normal VNull.
Proof.
  intros Hget Harr. unfold primary. rewrite Hget. simpl. rewrite Harr. simpl.
  by rewrite andb_false_r.
Qed.

(** The primary path leaves [extracted] null or a non-empty string. *)
Lemma primary_closed h content :
  heap_closed h → value_in h content →
  ∃ v, primary h content = Normal v
       ∧ (v = VNull ∨ ∃ s, v = VStr s ∧ s ≠ "").
Proof.
  intros Hc Hv.
  destruct (optGet_closed h content "parts" Hc Hv) as (parts & Hget & Hp).
  destruct (Array_isArray_closed h parts Hp) as [[] Harr].
  - apply Array_isArray_true in Harr as (l & elems & -> & Hl).
    unfold optChain in Hget.
    destruct (nullish content) eqn:Hn; [done|].
    rewrite (primary_array h content l elems Hc Hget Hl).
    eexists. split; [done|]. destruct (decide _) as [Hlen|]; [|by left].
    right. eexists. split; [done|].
    apply join_nonempty; [apply nonempty_texts_nonempty|].
    intros Heq. rewrite Heq in Hlen. simpl in Hlen. lia.
  - exists VNull. split; [|by left]. by eapply primary_not_array.
Qed.

(** ** The serializers on a closed heap *)

(** A stack of distinct objects of the heap is no longer than the heap. *)
Lemma stack_bound (h : heap) (stack : list loc) :
  NoDup stack → Forall (λ l, is_Some (h !! l)) stack →
  (length stack ≤ size h)%nat.
Proof.
  intros Hnd Hall.
  rewrite <- (size_list_to_set (C:=gset loc) stack Hnd), <- size_dom.
  apply subseteq_size. intros l Hl%elem_of_list_to_set.
  apply elem_of_dom. by eapply Forall_forall in Hall.
Qed.

Lemma SerializeJSONProperty_closed h :
  heap_closed h →
  ∀ fuel stack v,
    value_in h v → NoDup stack → Forall (λ l, is_Some (h !! l)) stack →
    size h < fuel + length stack →
    serialized v (SerializeJSONProperty h fuel stack v).
Proof.
  intros Hc. unfold serialized.
  induction fuel as [|fuel IH]; intros stack v Hv Hnd Hst Hsz.
  all: destruct v as [| |b|n|s|l]; simpl.
  all: try (by left).
  all: try (right; left; eexists; split; [|split; [|reflexivity]]; [|done];
            first [ done | by destruct b | apply Number_toString_nonempty ]).
  all: destruct (decide (l ∈ stack)) as [Hin|Hin]; [by right; right; exists l|].
  all: assert (length (l :: stack) ≤ size h)%nat as Hlen
    by (apply stack_bound; [by constructor|by constructor]).
  all: simpl in Hlen.
  1: lia.
  destruct Hv as [o Hl]. rewrite Hl.
  assert (∀ e, e ∈ children o →
    (∃ y, SerializeJSONProperty h fuel (l :: stack) e = Normal y)
    ∨ SerializeJSONProperty h fuel (l :: stack) e = Throw TypeError_cyclic)
    as Hkids.
  { intros e He.
    assert (value_in h e) as Hve by by eapply heap_closed_children.
    assert (NoDup (l :: stack)) as Hnd' by by constructor.
    assert (Forall (λ l, is_Some (h !! l)) (l :: stack)) as Hst'
      by (constructor; [by eexists|done]).
    assert (size h < fuel + length (l :: stack)) as Hsz' by (simpl; lia).
    destruct (IH (l :: stack) e Hve Hnd' Hst' Hsz')
      as [[_ ->]|[(s & _ & _ & ->)|(l' & _ & ->)]]; eauto. }
  destruct o as [props|elems]; simpl in Hkids.
  - destruct (mapM_Normal_or_Throw
      (λ kv, strP ← SerializeJSONProperty h fuel (l :: stack) kv.2;
             mret (member kv.1 <$> (strP : option string)))
      TypeError_cyclic props) as [(ys & -> & _)| ->].
    + apply Forall_forall. intros [k e] Hke. simpl.
      destruct (Hkids e) as [[y ->]| ->]; [|by left; eexists|by right].
      apply list_elem_of_fmap. by exists (k, e).
    + right; left. simpl.
      refine (ex_intro _ _ (conj _ (conj _ eq_refl))); done.
    + right; right. by exists l.
  - destruct (mapM_Normal_or_Throw
      (λ e, strP ← SerializeJSONProperty h fuel (l :: stack) e;
            mret (default "null" strP))
      TypeError_cyclic elems) as [(ys & -> & _)| ->].
    + apply Forall_forall. intros e He.
      destruct (Hkids e He) as [[y ->]| ->]; [by left; eexists|by right].
    + right; left. simpl.
      refine (ex_intro _ _ (conj _ (conj _ eq_refl))); done.
    + right; right. by exists l.
Qed.

(** [JSON.stringify] of a defined value: a non-empty string or the
    TypeError of a circular structure, which only an object can raise. *)
Lemma JSON_stringify_closed h v :
  heap_closed h → value_in h v → v ≠ VUndef →
  (∃ s, JSON_stringify h v = Normal (VStr s) ∧ s ≠ "")
  ∨ (JSON_stringify h v = Throw TypeError_cyclic ∧ ∃ l, v = VRef l).
Proof.
  intros Hc Hv Hne. unfold JSON_stringify.
  destruct (SerializeJSONProperty_closed h Hc (S (size h)) [] v)
    as [[-> _]|[(s & Hs & _ & ->)|(l & -> & ->)]]; try done.
  - constructor.
  - simpl. lia.
  - left. by exists s.
  - right. split; [done|]. by exists l.
Qed.

Lemma ToString_closed h :
  heap_closed h →
  ∀ fuel stack v,
    value_in h v → NoDup stack → Forall (λ l, is_Some (h !! l)) stack →
    size h < fuel + length stack →
    ∃ s, ToString h fuel stack v = Normal s.
Proof.
  intros Hc.
  induction fuel as [|fuel IH]; intros stack v Hv Hnd Hst Hsz.
  all: destruct v as [| |b|n|s|l]; simpl; try by eexists.
  all: destruct Hv as [[props|elems] Hl]; rewrite Hl; [by eexists|].
  all: destruct (decide (l ∈ stack)) as [Hin|Hin]; [by eexists|].
  all: assert (length (l :: stack) ≤ size h)%nat as Hlen
    by (apply stack_bound; [by constructor|by constructor]).
  all: simpl in Hlen.
  1: lia.
  destruct (mapM_Normal
    (λ e, if nullish e then mret "" else ToString h fuel (l :: stack) e)
    elems) as (ys & -> & _); [|by eexists].
  apply Forall_forall. intros e He.
  destruct (nullish e); [by eexists|].
  apply IH.
  - by eapply heap_closed_children.
  - by constructor.
  - constructor; [by eexists|done].
  - simpl. lia.
Qed.

(** [String(v)] always returns, and what it returns for anything but an
    array is not empty, the empty string itself apart. *)
Lemma String_closed h v :
  heap_closed h → value_in h v →
  ∃ s, String_ h v = Normal (VStr s)
       ∧ (s = "" → v = VStr "" ∨ Array_isArray h v = Normal true).
Proof.
  intros Hc Hv. unfold String_.
  destruct (ToString_closed h Hc (S (size h)) [] v) as [s Hs]; try done.
  { constructor. } { simpl. lia. }
  rewrite Hs. exists s. split; [done|]. intros ->.
  destruct v as [| |b|n|s|l]; simpl in *; try done.
  - by destruct b.
  - injection Hs as Hs. by apply Number_toString_nonempty in Hs.
  - left. congruence.
  - destruct (h !! l) as [[props|elems]|]; try done. by right.
Qed.

(** ** The later steps *)

(** Without a [response] there is no candidate. *)
Lemma firstCandidate_no_response h result :
  Get h result "response" = Normal VUndef →
  firstCandidate h result = Normal VUndef.
Proof.
  intros Hget. unfold firstCandidate, optChain.
  destruct (nullish result); [done|]. by rewrite Hget.
Qed.

(** A string has no properties of its own, so a string [response] holds no
    candidate either. *)
Lemma firstCandidate_string_response h result s :
  Get h result "response" = Normal (VStr s) →
  firstCandidate h result = Normal VUndef.
Proof.
  intros Hget. unfold firstCandidate, optChain.
  destruct (nullish result); [done|]. by rewrite Hget.
Qed.

Lemma Get_array h v k :
  Array_isArray h v = Normal true → Get h v k = Normal VUndef.
Proof. intros (l & elems & -> & Hl)%Array_isArray_true. simpl. by rewrite Hl. Qed.

(** After the secondary path [extracted] is null or a string. *)
Lemma secondary_closed h result extracted :
  heap_closed h → value_in h result →
  extracted = VNull ∨ (∃ s, extracted = VStr s ∧ s ≠ "") →
  ∃ v, secondary h result extracted = Normal v
       ∧ (v = VNull ∨ ∃ s, v = VStr s).
Proof.
  intros Hc Hv [->|(s & -> & Hs)]; unfold secondary; simpl.
  - destruct (optGet_closed h result "response" Hc Hv) as (r & Hr & _).
    rewrite Hr. simpl. destruct (decide _) as [Hty|_]; [|by eexists; eauto].
    unfold optChain in Hr. destruct (nullish result).
    + injection Hr as <-. done.
    + rewrite Hr. destruct r; try done. eexists; eauto.
  - apply String_eqb_empty in Hs. rewrite Hs. eexists; eauto.
Qed.

(** The last resort always produces a string; the string is empty only
    when the result is itself an array that the serializer refuses as
    circular. *)
Lemma fallback_closed h result candidate extracted :
  well_formed h result → value_in h candidate →
  firstCandidate h result = Normal candidate →
  extracted = VNull ∨ (∃ s, extracted = VStr s) →
  ∃ s, fallback h result candidate extracted = Normal (VStr s)
       ∧ (s = "" → Array_isArray h result = Normal true
                   ∧ JSON_stringify h result = Throw TypeError_cyclic).
Proof.
  intros [Hc Hv] Hvc Hcand Hex. unfold fallback.
  destruct (Boolean extracted) eqn:Hb.
  { destruct Hex as [->|[s ->]]; [done|]. exists s. split; [done|].
    intros ->. done. }
  clear Hex Hb extracted. unfold fragment.
  assert (∀ arg, value_in h arg → arg ≠ VUndef →
    (Array_isArray h result = Normal true ∨ result = VStr "" →
     arg = result) →
    ∃ s, try_catch (JSON_stringify h arg) (λ _, String_ h result)
         = Normal (VStr s)
       ∧ (s = "" → Array_isArray h result = Normal true
                   ∧ JSON_stringify h result = Throw TypeError_cyclic))
    as Hfrag.
  { intros arg Harg Hne Hres.
    destruct (JSON_stringify_closed h arg Hc Harg Hne)
      as [(s & -> & Hs)|[Hthrow [l ->]]].
    - exists s. by split.
    - rewrite Hthrow. simpl.
      destruct (String_closed h result Hc Hv) as (s & -> & Hs).
      exists s. split; [done|]. intros Hempty.
      destruct (Hs Hempty) as [->|Harr].
      + by specialize (Hres (or_intror eq_refl)).
      + specialize (Hres (or_introl Harr)). by subst. }
  destruct (nullish candidate) eqn:Hnc.
  - destruct (nullish result) eqn:Hnr.
    { destruct result; try done; simpl; by eexists. }
    destruct (Get_closed h result "response" Hc Hv Hnr) as (r & Hr & Hvr).
    rewrite Hr. simpl. destruct (nullish r) eqn:Hnrr.
    + apply Hfrag; [done| |done]. by destruct result.
    + apply Hfrag; [done|by destruct r|].
      intros [Harr| ->].
      * rewrite (Get_array _ _ _ Harr) in Hr. by injection Hr as <-.
      * simpl in Hr. by injection Hr as <-.
  - simpl. apply Hfrag; [done|by destruct candidate|].
    intros Hres. exfalso.
    assert (Get h result "response" = Normal VUndef) as Hnone.
    { destruct Hres as [Harr| ->]; [by apply Get_array|done]. }
    rewrite (firstCandidate_no_response _ _ Hnone) in Hcand.
    by injection Hcand as <-.
Qed.

(** Normalization of a well-formed answer never throws and never leaves
    the model: it produces a string, which is empty only when the answer
    is itself an array caught in a cycle. *)
Lemma normalize_closed h result :
  well_formed h result →
  ∃ s, normalize h result = Normal (VStr s)
       ∧ (s = "" → Array_isArray h result = Normal true
                   ∧ JSON_stringify h result = Throw TypeError_cyclic).
Proof.
  intros Hwf. pose proof Hwf as [Hc Hv]. unfold normalize.
  destruct (firstCandidate_closed h result Hwf) as (candidate & Hcand & Hvc).
  rewrite Hcand. simpl.
  destruct (optGet_closed h candidate "content" Hc Hvc)
    as (content & -> & Hvn).
  simpl.
  destruct (primary_closed h content Hc Hvn) as (e1 & -> & He1). simpl.
  destruct (secondary_closed h result e1 Hc Hv He1) as (e2 & -> & He2).
  simpl. by apply fallback_closed.
Qed.

(** Once [extracted] is truthy the later steps return it as it is,
    whatever the result and the candidate are. *)
Lemma later_steps_keep h result candidate extracted :
  Boolean extracted = true →
  secondary h result extracted = Normal extracted
  ∧ fallback h result candidate extracted = Normal extracted.
Proof. intros Hb. unfold secondary, fallback. by rewrite Hb. Qed.

Lemma Boolean_nonempty s : s ≠ "" → Boolean (VStr s) = true.
Proof. intros Hs. simpl. by apply String_eqb_empty. Qed.

Lemma candidateParts_Some h result parts :
  candidateParts h result = Some parts →
  ∃ candidate content l,
    firstCandidate h result = Normal candidate
    ∧ optChain candidate (λ c, Get h c "content") = Normal content
    ∧ Get h content "parts" = Normal (VRef l)
    ∧ h !! l = Some (JArray parts).
Proof.
  unfold candidateParts.
  destruct (firstCandidate h result) as [candidate| |]; simpl; try done.
  destruct (optChain candidate _) as [content| |] eqn:Hcontent; simpl;
    try done.
  destruct (optChain content _) as [[| |b|n|s|l]| |] eqn:Hparts; try done.
  destruct (h !! l) as [[props|elems]|] eqn:Hl; try done.
  intros [= ->]. exists candidate, content, l. repeat split; try done.
  unfold optChain in Hparts. by destruct (nullish content).
Qed.

(** ** The claims *)

(** C1, as amended.  When the first candidate's content holds a parts
    array with at least one part whose text is a non-empty string,
    [normalize] returns the texts of exactly the parts whose text is a
    string, concatenated in the order of the array with no separator. *)
Theorem normalize_concatenates_texts h result parts :
  heap_closed h →
  candidateParts h result = Some parts →
  (∃ p s, p ∈ parts ∧ textOf h p = Some s ∧ s ≠ "") →
  normalize h result
  = Normal (VStr (foldr append "" (omap (textOf h) parts))).
Proof.
  intros Hc (candidate & content & l & Hcand & Hcont & Hparts & Hl)
    %candidateParts_Some (p & s & Hp & Htext & Hs).
  unfold normalize. rewrite Hcand. simpl. rewrite Hcont. simpl.
  rewrite (primary_array h content l parts Hc Hparts Hl).
  assert (s ∈ nonempty_texts h parts) as Hin.
  { unfold nonempty_texts. apply list_elem_of_filter. split.
    - apply Is_true_true. by apply Boolean_nonempty.
    - apply list_elem_of_fmap. exists p. by rewrite Htext. }
  destruct (decide _) as [_|Hlen].
  2: { destruct (nonempty_texts h parts);
       [by apply elem_of_nil in Hin|simpl in Hlen; lia]. }
  simpl.
  assert (Boolean (VStr (join "" (nonempty_texts h parts))) = true) as Hb.
  { apply Boolean_nonempty, join_nonempty; [apply nonempty_texts_nonempty|].
    intros Heq. rewrite Heq in Hin. by apply elem_of_nil in Hin. }
  destruct (later_steps_keep h result candidate _ Hb) as [-> Hf]. simpl.
  by rewrite Hf, join_texts.
Qed.

Lemma normalize_concatenates_texts_witness :
  normalize looks_good (VRef 0) = Normal (VStr "Looks good.").
Proof.
  apply (normalize_concatenates_texts looks_good (VRef 0)
           [VRef 10; VRef 11; VRef 12]).
  - by_evaluation.
  - vm_compute. reflexivity.
  - exists (VRef 10), "Looks ". split; [left|].
    split; [vm_compute; reflexivity|done].
Defined.

(** C1 as it is written fails when the only string texts are empty: the
    answer [{ response: { candidates: [{ content: { parts: [{ text: '' }]
    } }] } }] has a part whose text is a string, the concatenation of the
    string texts is the empty string, and [normalize] returns the
    serialized candidate instead. *)
Lemma normalize_empty_text_serializes_candidate :
  heap_closed empty_text
  ∧ candidateParts empty_text (VRef 0) = Some [VRef 10]
  ∧ textOf empty_text (VRef 10) = Some ""
  ∧ normalize empty_text (VRef 0) = JSON_stringify empty_text (VRef 3)
  ∧ normalize empty_text (VRef 0)
    ≠ Normal (VStr (foldr append ""
                      (omap (textOf empty_text) [VRef 10]))).
Proof.
  split; [by_evaluation|].
  repeat split; try (vm_compute; reflexivity).
  vm_compute. discriminate.
Qed.

(** C2.  The result of normalization is a string for every well-formed
    answer, whichever step of the chain produces it. *)
Theorem normalize_returns_string h result :
  well_formed h result → ∃ s, normalize h result = Normal (VStr s).
Proof.
  intros Hwf. destruct (normalize_closed h result Hwf) as (s & Hs & _).
  by exists s.
Qed.

Lemma normalize_returns_string_witness :
  ∃ s, normalize self_object (VRef 0) = Normal (VStr s).
Proof.
  apply normalize_returns_string.
  by_evaluation.
Defined.

(** C3, as amended.  For every well-formed answer, with or without a text
    path, circular or not, [normalize] does not raise and returns a
    string; null and undefined give the strings null and undefined; and
    the string is empty only when the answer is itself an array that the
    serializer refuses as circular. *)
Theorem normalize_never_raises h result :
  well_formed h result →
  normalize h VNull = Normal (VStr "null")
  ∧ normalize h VUndef = Normal (VStr "undefined")
  ∧ ∃ s, normalize h result = Normal (VStr s)
         ∧ (s = "" → Array_isArray h result = Normal true
                     ∧ JSON_stringify h result = Throw TypeError_cyclic).
Proof.
  intros Hwf. repeat split; try done. by apply normalize_closed.
Qed.

Lemma normalize_never_raises_witness :
  normalize self_object VNull = Normal (VStr "null")
  ∧ normalize self_object VUndef = Normal (VStr "undefined")
  ∧ ∃ s, normalize self_object (VRef 0) = Normal (VStr s)
         ∧ (s = "" → Array_isArray self_object (VRef 0) = Normal true
                     ∧ JSON_stringify self_object (VRef 0)
                       = Throw TypeError_cyclic).
Proof.
  apply normalize_never_raises.
  by_evaluation.
Defined.

(** C3 as it is written fails on an array that contains itself: the
    answer [a] with [a[0] === a] has no response and no candidate, its
    serialization is refused as circular, and its string conversion is
    the empty string. *)
Lemma normalize_self_array_empty :
  well_formed self_array (VRef 0)
  ∧ Get self_array (VRef 0) "response" = Normal VUndef
  ∧ firstCandidate self_array (VRef 0) = Normal VUndef
  ∧ JSON_stringify self_array (VRef 0) = Throw TypeError_cyclic
  ∧ normalize self_array (VRef 0) = Normal (VStr "").
Proof.
  split; [by_evaluation|].
  repeat split; vm_compute; reflexivity.
Qed.

(** C4, as amended.  When the top-level [response] is a non-empty string,
    [normalize] returns that string unchanged; such an answer has no
    candidate, so its primary path is absent. *)
Theorem normalize_string_response h result s :
  Get h result "response" = Normal (VStr s) →
  s ≠ "" →
  normalize h result = Normal (VStr s).
Proof.
  intros Hget Hs. unfold normalize.
  rewrite (firstCandidate_string_response h result s Hget). simpl.
  assert (secondary h result VNull = Normal (VStr s)) as ->.
  { unfold secondary, optChain. simpl.
    destruct (nullish result) eqn:Hn; [by destruct result|].
    by rewrite Hget. }
  simpl. apply (later_steps_keep h result VUndef (VStr s)).
  by apply Boolean_nonempty.
Qed.

Lemma normalize_string_response_witness :
  normalize plain_text (VRef 0) = Normal (VStr "plain text").
Proof.
  apply normalize_string_response; [vm_compute; reflexivity|done].
Defined.

(** C4 as it is written fails on the empty string: for the answer
    [{ response: '' }] the primary path is absent, the response is a
    string, and [normalize] returns the serialized empty string, two
    quotation marks, not the empty string. *)
Lemma normalize_empty_response_quoted :
  Get empty_response (VRef 0) "response" = Normal (VStr "")
  ∧ firstCandidate empty_response (VRef 0) = Normal VUndef
  ∧ normalize empty_response (VRef 0)
    = Normal (VStr (String dquote (String dquote "")))
  ∧ normalize empty_response (VRef 0) ≠ Normal (VStr "").
Proof. repeat split; try (vm_compute; reflexivity). vm_compute. discriminate. Qed.

(** C5.  When the primary and the secondary path have left nothing, the
    last resort serializes the first candidate when there is one, else the
    [response] when there is one, else the whole result, and returns that
    text; when the serialization raises, [normalize] returns the string
    conversion of the whole result.  A null or undefined result has no
    [response] to read: the read raises inside the same [try], and the
    string conversion of the result is returned. *)
Theorem fallback_serializes_fragment h result candidate content e1 e2 :
  firstCandidate h result = Normal candidate →
  optChain candidate (λ c, Get h c "content") = Normal content →
  primary h content = Normal e1 →
  secondary h result e1 = Normal e2 →
  Boolean e2 = false →
  (nullish result = true → normalize h result = String_ h result)
  ∧ (nullish result = false →
     ∃ response,
       Get h result "response" = Normal response
       ∧ let frag :=
           if nullish candidate
           then if nullish response then result else response
           else candidate in
         (∀ v, JSON_stringify h frag = Normal v →
               normalize h result = Normal v)
         ∧ (∀ e, JSON_stringify h frag = Throw e →
                 normalize h result = String_ h result)).
Proof.
  intros Hcand Hcont Hprim Hsec Hb.
  assert (normalize h result
          = try_catch (arg ← fragment h result candidate; JSON_stringify h arg)
                      (λ _, String_ h result)) as ->.
  { unfold normalize. rewrite Hcand. simpl. rewrite Hcont. simpl.
    rewrite Hprim. simpl. rewrite Hsec. simpl. unfold fallback.
    by rewrite Hb. }
  split.
  - intros Hn. unfold firstCandidate, optChain in Hcand. rewrite Hn in Hcand.
    simpl in Hcand. injection Hcand as <-.
    by destruct result.
  - intros Hn. unfold firstCandidate, optChain in Hcand. rewrite Hn in Hcand.
    destruct (Get h result "response") as [response| |] eqn:Hget; try done.
    exists response. split; [done|]. unfold fragment. rewrite Hget.
    destruct (nullish candidate); simpl.
    + split; [by intros v ->|by intros e ->].
    + split; [by intros v ->|by intros e ->].
Qed.

Lemma fallback_serializes_fragment_witness :
  (nullish (VRef 0) = true →
   normalize blocked (VRef 0) = String_ blocked (VRef 0))
  ∧ (nullish (VRef 0) = false →
     ∃ response,
       Get blocked (VRef 0) "response" = Normal response
       ∧ let frag :=
           if nullish (VRef 3)
           then if nullish response then VRef 0 else response
           else VRef 3 in
         (∀ v, JSON_stringify blocked frag = Normal v →
               normalize blocked (VRef 0) = Normal v)
         ∧ (∀ e, JSON_stringify blocked frag = Throw e →
                 normalize blocked (VRef 0) = String_ blocked (VRef 0))).
Proof.
  apply (fallback_serializes_fragment blocked (VRef 0) (VRef 3) VUndef
           VNull VNull); vm_compute; reflexivity.
Defined.

(** C6.  The steps are tried in order and the first success wins: when
    the primary path yields a non-empty concatenation, [normalize] returns
    exactly it, and the later steps hand on any truthy [extracted]
    untouched, whatever the response and the candidate are. *)
Theorem primary_path_wins h result candidate content s :
  firstCandidate h result = Normal candidate →
  optChain candidate (λ c, Get h c "content") = Normal content →
  primary h content = Normal (VStr s) →
  s ≠ "" →
  normalize h result = Normal (VStr s)
  ∧ ∀ result' candidate' extracted,
      Boolean extracted = true →
      secondary h result' extracted = Normal extracted
      ∧ fallback h result' candidate' extracted = Normal extracted.
Proof.
  intros Hcand Hcont Hprim Hs. split.
  - unfold normalize. rewrite Hcand. simpl. rewrite Hcont. simpl.
    rewrite Hprim. simpl.
    destruct (later_steps_keep h result candidate (VStr s)) as [-> Hf];
      [by apply Boolean_nonempty|done].
  - intros result' candidate' extracted. apply later_steps_keep.
Qed.

Lemma primary_path_wins_witness :
  normalize looks_good (VRef 0) = Normal (VStr "Looks good.")
  ∧ ∀ result' candidate' extracted,
      Boolean extracted = true →
      secondary looks_good result' extracted = Normal extracted
      ∧ fallback looks_good result' candidate' extracted = Normal extracted.
Proof.
  apply (primary_path_wins looks_good (VRef 0) (VRef 3) (VRef 4));
    [vm_compute; reflexivity..|done].
Defined.

(** ** The primary path on malformed parts *)

(** C9.  On a closed heap the primary path never raises, whatever the
    entries of the parts array are; an entry that is not an object with a
    string [text] maps to the empty string and adds nothing to [texts];
    and when [content.parts] is not an array the path leaves [extracted]
    null, so that normalization is the later steps run from null. *)
Theorem primary_never_raises h content :
  heap_closed h →
  value_in h content →
  (∃ extracted, primary h content = Normal extracted)
  ∧ (∀ p, value_in h p → textOf h p = None →
          partText h p = Normal ""
          ∧ ∀ ps qs, textsOf h (ps ++ p :: qs)%list
                      = textsOf h (ps ++ qs)%list)
  ∧ (∀ parts,
       optChain content (λ c, Get h c "parts") = Normal parts →
       Array_isArray h parts = Normal false →
       primary h content = Normal VNull
       ∧ ∀ result candidate,
           firstCandidate h result = Normal candidate →
           optChain candidate (λ c, Get h c "content") = Normal content →
           normalize h result
           = (secondary h result VNull ≫= fallback h result candidate)).
Proof.
  intros Hc Hv. split; [|split].
  - destruct (primary_closed h content Hc Hv) as (v & Hprim & _). by exists v.
  - intros p Hp Hnone.
    assert (partText h p = Normal "") as Hempty
      by by rewrite (partText_textOf h p Hp), Hnone.
    split; [done|]. intros ps qs. by apply textsOf_skip.
  - intros parts Hparts Harr.
    assert (primary h content = Normal VNull) as Hprim
      by by eapply primary_not_array.
    split; [done|]. intros result candidate Hcand Hcont.
    unfold normalize. rewrite Hcand. simpl. rewrite Hcont. simpl.
    by rewrite Hprim.
Qed.

Lemma primary_never_raises_witness :
  (∃ extracted, primary ragged (VRef 4) = Normal extracted)
  ∧ (∀ p, value_in ragged p → textOf ragged p = None →
          partText ragged p = Normal ""
          ∧ ∀ ps qs, textsOf ragged (ps ++ p :: qs)%list
                      = textsOf ragged (ps ++ qs)%list)
  ∧ (∀ parts,
       optChain (VRef 4) (λ c, Get ragged c "parts") = Normal parts →
       Array_isArray ragged parts = Normal false →
       primary ragged (VRef 4) = Normal VNull
       ∧ ∀ result candidate,
           firstCandidate ragged result = Normal candidate →
           optChain candidate (λ c, Get ragged c "content")
           = Normal (VRef 4) →
           normalize ragged result
           = (secondary ragged result VNull ≫= fallback ragged result candidate)).
Proof.
  apply primary_never_raises; [by_evaluation|].
  apply (bool_decide_unpack _). vm_compute. exact I.
Defined.

Example primary_ragged : primary ragged (VRef 4) = Normal (VStr "ok").
Proof. vm_compute. reflexivity. Qed.

(** ** Validation and the call of the model *)

Lemma invalid_spec prompt :
  invalid prompt = true ↔ prompt = VStr "" ∨ typeof prompt ≠ "string".
Proof.
  unfold invalid. split.
  - intros Hi. destruct prompt as [| |b|n|s|l]; try (by right).
    destruct s as [|c s]; [by left|].
    by vm_compute in Hi.
  - intros [->|Hty]; [done|].
    rewrite (bool_decide_eq_false_2 _ Hty). apply orb_true_r.
Qed.

Lemma invalid_nonempty s : s ≠ "" → invalid (VStr s) = false.
Proof.
  intros Hs. destruct (invalid (VStr s)) eqn:Hi; [|done].
  apply invalid_spec in Hi as [[= ->]|Hty]; done.
Qed.

Section ServiceProperties.

Variable sdk : value → completion (heap * value).

(** A run that passes the guard calls the model once, with the prompt. *)
Lemma generateContent_valid prompt :
  invalid prompt = false →
  modelCalls (generateContent sdk prompt).1 = [prompt]
  ∧ head (generateContent sdk prompt).1 = Some (ModelCall prompt).
Proof.
  intros Hi. unfold generateContent. rewrite Hi.
  destruct (sdk prompt) as [[h result]| |]; [|done..].
  by destruct (normalize h result).
Qed.

Lemma generateContent_invalid prompt :
  invalid prompt = true →
  generateContent sdk prompt = ([], Throw MissingInput).
Proof. intros Hi. unfold generateContent. by rewrite Hi. Qed.

(** C7.  The run fails with MissingInput, before any call of the model,
    exactly when the prompt is absent, empty or not a string.  An absent
    and an empty code fail so; the code x passes and is what the model is
    called with. *)
Theorem validation_rejects_exactly prompt :
  (prompt = VUndef ∨ prompt = VStr "" ∨ typeof prompt ≠ "string"
   ↔ generateContent sdk prompt = ([], Throw MissingInput))
  ∧ (invalid prompt = true →
     modelCalls (generateContent sdk prompt).1 = [])
  ∧ generateContent sdk VUndef = ([], Throw MissingInput)
  ∧ generateContent sdk (VStr "") = ([], Throw MissingInput)
  ∧ modelCalls (generateContent sdk (VStr "x")).1 = [VStr "x"].
Proof.
  split; [|split; [|split; [done|split; [done|]]]].
  - split.
    + intros Hbad. apply generateContent_invalid, invalid_spec.
      destruct Hbad as [->|[->|Hty]]; [by right|by left|by right].
    + intros Hrun. destruct (invalid prompt) eqn:Hi.
      * apply invalid_spec in Hi as [->|Hty]; auto.
      * destruct (generateContent_valid prompt Hi) as [_ Hhead].
        by rewrite Hrun in Hhead.
  - intros Hi. by rewrite generateContent_invalid.
  - by apply generateContent_valid.
Qed.

(** C8.  A non-empty string prompt reaches the model as it is: the one
    request of the run is that very string, and the run ends the way
    the model's answer to it takes it. *)
Theorem valid_prompt_forwarded s :
  s ≠ "" →
  modelCalls (generateContent sdk (VStr s)).1 = [VStr s]
  ∧ head (generateContent sdk (VStr s)).1 = Some (ModelCall (VStr s))
  ∧ (∀ e, sdk (VStr s) = Throw e →
          (generateContent sdk (VStr s)).2 = Throw e)
  ∧ (∀ h result, sdk (VStr s) = Normal (h, result) →
                 (generateContent sdk (VStr s)).2 = normalize h result).
Proof.
  intros Hs. pose proof (invalid_nonempty s Hs) as Hi.
  destruct (generateContent_valid (VStr s) Hi) as [Hcalls Hhead].
  repeat split; try done.
  - intros e He. unfold generateContent. by rewrite Hi, He.
  - intros h result Hr. unfold generateContent. rewrite Hi, Hr.
    by destruct (normalize h result).
Qed.

(** C10.  A string of white space only is accepted and is the request
    the model receives, character for character; the guard rejects
    nothing but the empty string and the values that are not strings,
    the absent value among them. *)
Theorem whitespace_prompt_accepted s :
  s ≠ "" →
  forallb whitespace (list_ascii_of_string s) = true →
  invalid (VStr s) = false
  ∧ modelCalls (generateContent sdk (VStr s)).1 = [VStr s]
  ∧ ∀ prompt, invalid prompt = true →
              prompt = VStr "" ∨ typeof prompt ≠ "string".
Proof.
  intros Hs _. pose proof (invalid_nonempty s Hs) as Hi.
  split; [done|]. split; [by apply generateContent_valid|].
  intros prompt. apply invalid_spec.
Qed.

End ServiceProperties.

Lemma valid_prompt_forwarded_witness :
  modelCalls (generateContent sdk_answers (VStr " review  me ")).1
  = [VStr " review  me "]
  ∧ head (generateContent sdk_answers (VStr " review  me ")).1
    = Some (ModelCall (VStr " review  me "))
  ∧ (∀ e, sdk_answers (VStr " review  me ") = Throw e →
          (generateContent sdk_answers (VStr " review  me ")).2 = Throw e)
  ∧ (∀ h result, sdk_answers (VStr " review  me ") = Normal (h, result) →
                 (generateContent sdk_answers (VStr " review  me ")).2
                 = normalize h result).
Proof.
  apply (valid_prompt_forwarded sdk_answers " review  me "). done.
Defined.

Lemma whitespace_prompt_accepted_witness :
  invalid (VStr " ") = false
  ∧ modelCalls (generateContent sdk_rejects (VStr " ")).1 = [VStr " "]
  ∧ ∀ prompt, invalid prompt = true →
              prompt = VStr "" ∨ typeof prompt ≠ "string".
Proof.
  apply (whitespace_prompt_accepted sdk_rejects " "); [done|].
  vm_compute. reflexivity.
Defined.

(** The bodies of the three requests of the specification. *)
Example requestCode_absent :
  requestCode {[ 0%nat := JObject [] ]} (VRef 0) = Normal VUndef.
Proof. vm_compute. reflexivity. Qed.

Example requestCode_empty :
  requestCode {[ 0%nat := JObject [("code", VStr "")] ]} (VRef 0)
  = Normal (VStr "").
Proof. vm_compute. reflexivity. Qed.

Example requestCode_x :
  requestCode {[ 0%nat := JObject [("code", VStr "x")] ]} (VRef 0)
  = Normal (VStr "x").
Proof. vm_compute. reflexivity. Qed.

(** ** The serializers on concrete values *)

(** An undefined element is written as null, an undefined property is
    left out. *)
Example stringify_undefined_element :
  JSON_stringify {[ 0%nat := JArray [VUndef; VNum 1; VBool false] ]} (VRef 0)
  = Normal (VStr "[null,1,false]").
Proof. vm_compute. reflexivity. Qed.

Example stringify_undefined_property :
  JSON_stringify {[ 0%nat := JObject [("gone", VUndef)] ]} (VRef 0)
  = Normal (VStr "{}").
Proof. vm_compute. reflexivity. Qed.

(** A value met twice is not a cycle; a value met inside itself is. *)
Example stringify_shared :
  JSON_stringify {[ 0%nat := JArray [VRef 1; VRef 1]; 1%nat := JArray [] ]}
    (VRef 0)
  = Normal (VStr "[[],[]]").
Proof. vm_compute. reflexivity. Qed.

Example stringify_circular :
  JSON_stringify self_object (VRef 0) = Throw TypeError_cyclic.
Proof. vm_compute. reflexivity. Qed.

(** Keys and strings are quoted, control characters escaped. *)
Example stringify_quotes :
  JSON_stringify {[ 0%nat := JObject [("k", VStr (String (ascii_of_nat 10) "b"))] ]}
    (VRef 0)
  = Normal (VStr ("{" +:+ String dquote ("k" +:+ String dquote (":"
       +:+ String dquote ("\nb" +:+ String dquote "}"))))).
Proof. vm_compute. reflexivity. Qed.

Example String_nested_array :
  String_ {[ 0%nat := JArray [VNum 1; VRef 1; VNull; VRef 2];
             1%nat := JArray [VNum 2; VNum (-3)];
             2%nat := JObject [] ]} (VRef 0)
  = Normal (VStr "1,2,-3,,[object Object]").
Proof. vm_compute. reflexivity. Qed.

Example String_circular_array :
  String_ {[ 0%nat := JArray [VNum 1; VRef 0] ]} (VRef 0)
  = Normal (VStr "1,").
Proof. vm_compute. reflexivity. Qed.

(** The blocked answer comes back as its serialized candidate. *)
Example normalize_blocked :
  normalize blocked (VRef 0) = JSON_stringify blocked (VRef 3).
Proof. vm_compute. reflexivity. Qed.

(** A whole run on the answer of the specification's example. *)
Example generateContent_looks_good :
  generateContent sdk_answers (VStr "let x = 1")
  = ([ModelCall (VStr "let x = 1"); ConsoleLog (VStr "Looks good.")],
     Normal (VStr "Looks good.")).
Proof. vm_compute. reflexivity. Qed.

Example generateContent_rejected :
  generateContent sdk_rejects (VStr "let x = 1")
  = ([ModelCall (VStr "let x = 1")], Throw (Rejected "quota")).
Proof. vm_compute. reflexivity. Qed.

(** * Further properties of the service *)

(** ** The run of [generateContent] *)

(** On a well-formed answer to a non-empty string prompt the service
    resolves with a string: it calls the model once, logs the string it
    is about to return, once, and returns it. *)
Theorem generateContent_resolves_with_logged_string
    (sdk : value → completion (heap * value)) s h result :
  s ≠ "" →
  sdk (VStr s) = Normal (h, result) →
  well_formed h result →
  ∃ r, normalize h result = Normal (VStr r)
       ∧ generateContent sdk (VStr s)
         = ([ModelCall (VStr s); ConsoleLog (VStr r)], Normal (VStr r)).
Proof.
  intros Hs Hsdk Hwf.
  destruct (normalize_closed h result Hwf) as (r & Hr & _).
  exists r. split; [done|].
  unfold generateContent. by rewrite (invalid_nonempty s Hs), Hsdk, Hr.
Qed.

Lemma generateContent_resolves_with_logged_string_witness :
  ∃ r, normalize looks_good (VRef 0) = Normal (VStr r)
       ∧ generateContent sdk_answers (VStr "let x = 1")
         = ([ModelCall (VStr "let x = 1"); ConsoleLog (VStr r)],
            Normal (VStr r)).
Proof.
  apply (generateContent_resolves_with_logged_string sdk_answers
           "let x = 1" looks_good (VRef 0)); [done|done|by_evaluation].
Defined.

(** The console sees a value exactly when the run returns it: nothing is
    logged by a run that fails validation, whose model call rejects or
    whose normalization throws. *)
Theorem generateContent_logs_iff_returns
    (sdk : value → completion (heap * value)) prompt v :
  ConsoleLog v ∈ (generateContent sdk prompt).1
  ↔ (generateContent sdk prompt).2 = Normal v.
Proof.
  unfold generateContent.
  destruct (invalid prompt); simpl.
  { split; [by intros ?%elem_of_nil|done]. }
  destruct (sdk prompt) as [[h result]| |]; simpl.
  2,3: split; [|done].
  2,3: intros [?|?%elem_of_nil]%elem_of_cons; done.
  destruct (normalize h result) as [w| |]; simpl.
  2,3: split; [|done].
  2,3: intros [?|?%elem_of_nil]%elem_of_cons; done.
  split.
  - intros [?|[[= ->]|?%elem_of_nil]%elem_of_cons]%elem_of_cons; done.
  - intros [= ->]. right. left.
Qed.

(** ** The string conversion of the last resort *)

(** [String(result)] returns a string for every well-formed result, a
    circular one included, and for a result that is a plain object the
    string is the fixed tag of objects. *)
Theorem String_never_raises h result :
  well_formed h result →
  ∃ s, String_ h result = Normal (VStr s)
       ∧ ∀ l props, result = VRef l → h !! l = Some (JObject props) →
                    s = "[object Object]".
Proof.
  intros [Hc Hv]. destruct (String_closed h result Hc Hv) as (s & Hs & _).
  exists s. split; [done|]. intros l props -> Hl.
  unfold String_ in Hs. simpl in Hs. rewrite Hl in Hs. simpl in Hs.
  by injection Hs as <-.
Qed.

Lemma String_never_raises_witness :
  ∃ s, String_ self_array (VRef 0) = Normal (VStr s)
       ∧ ∀ l props, VRef 0 = VRef l →
                    self_array !! l = Some (JObject props) →
                    s = "[object Object]".
Proof. apply (String_never_raises self_array (VRef 0)). by_evaluation. Defined.

(** ** A candidate without text *)

(** When the parts array of the first candidate yields no text, an empty
    array included, [normalize] returns the serialized first candidate,
    and the string conversion of the result, which is an object, when the
    candidate is circular. *)
Theorem normalize_textless_candidate h result parts :
  candidateParts h result = Some parts →
  textsOf h parts = Normal [] →
  ∃ candidate,
    firstCandidate h result = Normal candidate
    ∧ nullish candidate = false
    ∧ normalize h result
      = try_catch (JSON_stringify h candidate)
                  (λ _, Normal (VStr "[object Object]")).
Proof.
  intros (candidate & content & l & Hcand & Hcont & Hparts & Hl)
    %candidateParts_Some Htexts.
  exists candidate.
  assert (nullish content = false) as Hnc by by destruct content.
  assert (nullish candidate = false) as Hncand.
  { unfold optChain in Hcont. destruct (nullish candidate); [|done].
    injection Hcont as <-. done. }
  split; [done|]. split; [done|].
  (* the result is an object whose response is an object *)
  pose proof Hcand as Hpath. unfold firstCandidate, optChain in Hpath.
  destruct (nullish result) eqn:Hnr; simpl in Hpath.
  { injection Hpath as <-. done. }
  destruct (Get h result "response") as [response| |] eqn:Hresp;
    simpl in Hpath; try done.
  destruct (nullish response) eqn:Hnresp; simpl in Hpath.
  { injection Hpath as <-. done. }
  assert (typeof response ≠ "string") as Hty.
  { destruct response; simpl in *; try done.
    injection Hpath as <-. done. }
  assert (String_ h result = Normal (VStr "[object Object]")) as Hstr.
  { destruct result as [| |b|n|s|lr]; simpl in Hresp; try done;
      try (injection Hresp as <-; done).
    unfold String_. simpl.
    destruct (h !! lr) as [[props|elems]|]; try done.
    injection Hresp as <-. done. }
  unfold normalize. rewrite Hcand. simpl. rewrite Hcont. simpl.
  assert (primary h content = Normal VNull) as ->.
  { unfold primary, optChain. rewrite Hnc, Hparts. simpl. rewrite Hl. simpl.
    by rewrite Htexts. }
  simpl.
  assert (secondary h result VNull = Normal VNull) as ->.
  { unfold secondary, optChain. simpl. rewrite Hnr, Hresp. simpl.
    by destruct (decide _). }
  simpl. unfold fallback, fragment. simpl. rewrite Hncand. simpl.
  destruct (JSON_stringify h candidate); simpl; done.
Qed.

Lemma normalize_textless_candidate_witness :
  ∃ candidate,
    firstCandidate no_parts (VRef 0) = Normal candidate
    ∧ nullish candidate = false
    ∧ normalize no_parts (VRef 0)
      = try_catch (JSON_stringify no_parts candidate)
                  (λ _, Normal (VStr "[object Object]")).
Proof.
  apply (normalize_textless_candidate no_parts (VRef 0) []);
    vm_compute; reflexivity.
Defined.

(** ** A result that is a primitive *)

(** A result that is itself a string, a number or a boolean has no
    response to read: it comes back serialized, a string within
    quotation marks. *)
Theorem normalize_primitive h :
  (∀ s, normalize h (VStr s) = Normal (VStr (QuoteJSONString s)))
  ∧ (∀ n, normalize h (VNum n) = Normal (VStr (Number_toString n)))
  ∧ (∀ b, normalize h (VBool b)
          = Normal (VStr (if b then "true" else "false"))).
Proof. repeat split. Qed.

(** ** When the serializer throws *)








(** * The front end *)

(** ** The serializer with a gap on a closed heap *)

Lemma wrap_nonempty gap opening closing stepback indent partial :
  opening ≠ "" → wrap gap opening closing stepback indent partial ≠ "".
Proof.
  intros Ho. unfold wrap.
  destruct partial; [|destruct (decide _)]; by apply append_nonempty_l.
Qed.

Lemma SerializeJSONProperty_gap_closed h gap :
  heap_closed h →
  ∀ fuel stack indent v,
    value_in h v → NoDup stack → Forall (λ l, is_Some (h !! l)) stack →
    size h < fuel + length stack →
    serialized v (SerializeJSONProperty_gap h gap fuel stack indent v).
Proof.
  intros Hc. unfold serialized.
  induction fuel as [|fuel IH]; intros stack indent v Hv Hnd Hst Hsz.
  all: destruct v as [| |b|n|s|l]; simpl.
  all: try (by left).
  all: try (right; left; eexists; split; [|split; [|reflexivity]]; [|done];
            first [ done | by destruct b | apply Number_toString_nonempty ]).
  all: destruct (decide (l ∈ stack)) as [Hin|Hin]; [by right; right; exists l|].
  all: assert (length (l :: stack) ≤ size h)%nat as Hlen
    by (apply stack_bound; [by constructor|by constructor]).
  all: simpl in Hlen.
  1: lia.
  destruct Hv as [o Hl]. rewrite Hl.
  assert (∀ e, e ∈ children o →
    (∃ y, SerializeJSONProperty_gap h gap fuel (l :: stack)
            (indent +:+ gap) e = Normal y)
    ∨ SerializeJSONProperty_gap h gap fuel (l :: stack) (indent +:+ gap) e
      = Throw TypeError_cyclic)
    as Hkids.
  { intros e He.
    assert (value_in h e) as Hve by by eapply heap_closed_children.
    assert (NoDup (l :: stack)) as Hnd' by by constructor.
    assert (Forall (λ l, is_Some (h !! l)) (l :: stack)) as Hst'
      by (constructor; [by eexists|done]).
    assert (size h < fuel + length (l :: stack)) as Hsz' by (simpl; lia).
    destruct (IH (l :: stack) (indent +:+ gap) e Hve Hnd' Hst' Hsz')
      as [[_ ->]|[(s & _ & _ & ->)|(l' & _ & ->)]]; eauto. }
  destruct o as [props|elems]; simpl in Hkids.
  - destruct (mapM_Normal_or_Throw
      (λ kv, strP ← SerializeJSONProperty_gap h gap fuel (l :: stack)
                      (indent +:+ gap) kv.2;
             mret (member_gap gap kv.1 <$> (strP : option string)))
      TypeError_cyclic props) as [(ys & -> & _)| ->].
    + apply Forall_forall. intros [k e] Hke. simpl.
      destruct (Hkids e) as [[y ->]| ->]; [|by left; eexists|by right].
      apply list_elem_of_fmap. by exists (k, e).
    + right; left. simpl.
      refine (ex_intro _ _ (conj _ (conj _ eq_refl))); [|done].
      by apply wrap_nonempty.
    + right; right. by exists l.
  - destruct (mapM_Normal_or_Throw
      (λ e, strP ← SerializeJSONProperty_gap h gap fuel (l :: stack)
                     (indent +:+ gap) e;
            mret (default "null" strP))
      TypeError_cyclic elems) as [(ys & -> & _)| ->].
    + apply Forall_forall. intros e He.
      destruct (Hkids e He) as [[y ->]| ->]; [by left; eexists|by right].
    + right; left. simpl.
      refine (ex_intro _ _ (conj _ (conj _ eq_refl))); [|done].
      by apply wrap_nonempty.
    + right; right. by exists l.
Qed.

Lemma JSON_stringify_space_closed h v space :
  heap_closed h → value_in h v → v ≠ VUndef →
  (∃ s, JSON_stringify_space h v space = Normal (VStr s) ∧ s ≠ "")
  ∨ JSON_stringify_space h v space = Throw TypeError_cyclic.
Proof.
  intros Hc Hv Hne. unfold JSON_stringify_space.
  destruct (SerializeJSONProperty_gap_closed h (gap_of_space space) Hc
              (S (size h)) [] "" v)
    as [[-> _]|[(s & Hs & _ & ->)|(l & -> & ->)]]; try done.
  - constructor.
  - simpl. lia.
  - left. by exists s.
  - by right.
Qed.

Lemma mapM_ext {A B} (f g : A → completion B) (l : list A) :
  (∀ x, f x = g x) → mapM f l = mapM g l.
Proof.
  intros Hfg. induction l as [|x l IH]; simpl; [done|].
  by rewrite Hfg, IH.
Qed.

Lemma member_gap_empty k strP : member_gap "" k strP = member k strP.
Proof. unfold member_gap, member. by destruct (decide _). Qed.

Lemma wrap_empty opening closing stepback indent partial :
  wrap "" opening closing stepback indent partial
  = opening +:+ join "," partial +:+ closing.
Proof. unfold wrap. destruct partial; [done|]. by destruct (decide _). Qed.

(** With no space the serializer with a gap is the compact one. *)
Lemma SerializeJSONProperty_gap_empty h fuel :
  ∀ stack indent v,
    SerializeJSONProperty_gap h "" fuel stack indent v
    = SerializeJSONProperty h fuel stack v.
Proof.
  induction fuel as [|fuel IH]; intros stack indent v.
  all: destruct v as [| |b|n|s|l]; simpl; try done.
  destruct (decide _); [done|].
  destruct (h !! l) as [[props|elems]|]; [| |done].
  - rewrite (mapM_ext _
      (λ kv, strP ← SerializeJSONProperty h fuel (l :: stack) kv.2;
             mret (member kv.1 <$> (strP : option string)))).
    + destruct (mapM _ props); simpl; [|done..]. by rewrite wrap_empty.
    + intros kv. rewrite IH.
      destruct (SerializeJSONProperty h fuel (l :: stack) kv.2) as [[y|]| |];
        simpl; by rewrite ?member_gap_empty.
  - rewrite (mapM_ext _
      (λ e, strP ← SerializeJSONProperty h fuel (l :: stack) e;
            mret (default "null" strP))).
    + destruct (mapM _ elems); simpl; [|done..]. by rewrite wrap_empty.
    + intros e. by rewrite IH.
Qed.

(** [JSON.stringify(v, null, 0)] is [JSON.stringify(v)]. *)
Lemma JSON_stringify_space_0 h v :
  JSON_stringify_space h v 0 = JSON_stringify h v.
Proof.
  unfold JSON_stringify_space, JSON_stringify.
  by rewrite (SerializeJSONProperty_gap_empty h (S (size h)) [] "" v).
Qed.

(** ** [reviewCode] *)

Lemma reviewText_closed h response :
  well_formed h response →
  ∃ text, reviewText h response = Normal text
          ∧ value_in h text ∧ nullish text = false.
Proof.
  intros [Hc Hv]. unfold reviewText.
  destruct (optGet_closed h response "data" Hc Hv) as (data & -> & Hd).
  simpl.
  destruct (optGet_closed h data "response" Hc Hd) as (inner & -> & Hi).
  simpl. destruct (nullish inner) eqn:Hni; [|by eexists].
  destruct (nullish data) eqn:Hnd; by eexists.
Qed.

Lemma rendered_closed h text :
  heap_closed h → value_in h text → nullish text = false →
  (∃ s, rendered h text = Normal (VStr s))
  ∨ rendered h text = Throw TypeError_cyclic.
Proof.
  intros Hc Hv Hn. unfold rendered. destruct (decide _) as [Hty|Hty].
  - left. destruct text; try done. by eexists.
  - destruct (JSON_stringify_space_closed h text 2 Hc Hv)
      as [(s & -> & _)| ->]; [by destruct text|by left; eexists|by right].
Qed.

(** The [try] either produces a string for [setReview] or throws. *)
Lemma fetchReview_closed
    (axios : string → list (string * value) → completion (heap * value))
    code :
  reply_ok (axios review_url [("code", VStr code)]) →
  (∃ s, fetchReview axios code = Normal (VStr s))
  ∨ (∃ e, fetchReview axios code = Throw e).
Proof.
  unfold fetchReview, reply_ok.
  destruct (axios _ _) as [[h response]|e|]; simpl; [|by right; eexists|done].
  intros Hwf. pose proof Hwf as [Hc _].
  destruct (reviewText_closed h response Hwf) as (text & -> & Hv & Hn).
  simpl. destruct (rendered_closed h text Hc Hv Hn) as [[s ->]| ->].
  - left. by eexists.
  - right. by eexists.
Qed.

(** Whether the request succeeds, is rejected, or brings back something
    that cannot be shown, a run of [reviewCode] completes: it raises
    [loading] first, lowers it last, and touches it at no other time. *)
Theorem reviewCode_loading_brackets
    (axios : string → list (string * value) → completion (heap * value))
    code :
  reply_ok (axios review_url [("code", VStr code)]) →
  (reviewCode axios code).2 = Normal tt
  ∧ loadings (reviewCode axios code).1 = [true; false]
  ∧ head (reviewCode axios code).1 = Some (SetLoading true)
  ∧ last (reviewCode axios code).1 = Some (SetLoading false).
Proof.
  intros Hok. unfold reviewCode.
  by destruct (fetchReview_closed axios code Hok) as [[s ->]|[e ->]].
Qed.

Lemma reviewCode_loading_brackets_witness :
  (reviewCode (λ _ _, Normal (reply_circular, VRef 0)) "x").2 = Normal tt
  ∧ loadings (reviewCode (λ _ _, Normal (reply_circular, VRef 0)) "x").1
    = [true; false]
  ∧ head (reviewCode (λ _ _, Normal (reply_circular, VRef 0)) "x").1
    = Some (SetLoading true)
  ∧ last (reviewCode (λ _ _, Normal (reply_circular, VRef 0)) "x").1
    = Some (SetLoading false).
Proof.
  apply (reviewCode_loading_brackets
           (λ _ _, Normal (reply_circular, VRef 0)) "x").
  simpl. by_evaluation.
Defined.

(** [setReview] is called once in every run, and with a string: the
    review of the back end, the serialized body, or the error text, never
    an object. *)
Theorem reviewCode_review_is_string
    (axios : string → list (string * value) → completion (heap * value))
    code :
  reply_ok (axios review_url [("code", VStr code)]) →
  ∃ s, reviews (reviewCode axios code).1 = [VStr s].
Proof.
  intros Hok. unfold reviewCode.
  destruct (fetchReview_closed axios code Hok) as [[s ->]|[e ->]];
    by eexists.
Qed.

Lemma reviewCode_review_is_string_witness :
  ∃ s, reviews (reviewCode (λ _ _, Normal (blocked, VRef 0)) "x").1
       = [VStr s].
Proof.
  apply (reviewCode_review_is_string (λ _ _, Normal (blocked, VRef 0)) "x").
  simpl. by_evaluation.
Defined.

(** The review is shown unchanged, the empty one included, whether the
    body of the reply is [{ response: s }] or the bare string [s]; the
    console stays silent. *)
Theorem reviewCode_shows_review
    (axios : string → list (string * value) → completion (heap * value))
    code h response data s :
  axios review_url [("code", VStr code)] = Normal (h, response) →
  Get h response "data" = Normal data →
  data = VStr s ∨ Get h data "response" = Normal (VStr s) →
  reviewCode axios code
  = ([SetLoading true; AxiosPost review_url [("code", VStr code)];
      SetReview (VStr s); SetLoading false], Normal tt).
Proof.
  intros Hax Hdata Hs.
  assert (fetchReview axios code = Normal (VStr s)) as Hfetch.
  { unfold fetchReview. rewrite Hax. simpl. unfold reviewText, optChain.
    destruct (nullish response) eqn:Hnr; [by destruct response|].
    rewrite Hdata. simpl. destruct Hs as [->|Hresp]; [done|].
    destruct (nullish data) eqn:Hnd; [by destruct data|].
    by rewrite Hresp. }
  unfold reviewCode. by rewrite Hfetch.
Qed.

Lemma reviewCode_shows_review_witness :
  reviewCode (λ _ _, Normal (reply_with (VStr "Looks good."), VRef 0)) "x"
  = ([SetLoading true; AxiosPost review_url [("code", VStr "x")];
      SetReview (VStr "Looks good."); SetLoading false], Normal tt).
Proof.
  apply (reviewCode_shows_review _ "x" (reply_with (VStr "Looks good."))
           (VRef 0) (VRef 1) "Looks good.");
    [reflexivity|vm_compute; reflexivity|right; vm_compute; reflexivity].
Defined.

(** A rejected request is reported and never rethrown: the error goes to
    the console, the review becomes the fixed error text, and [loading]
    is lowered. *)
Theorem reviewCode_request_rejected
    (axios : string → list (string * value) → completion (heap * value))
    code e :
  axios review_url [("code", VStr code)] = Throw e →
  reviewCode axios code
  = ([SetLoading true; AxiosPost review_url [("code", VStr code)];
      ConsoleError "Failed to fetch review:" e;
      SetReview (VStr review_failed); SetLoading false], Normal tt).
Proof.
  intros Hax. unfold reviewCode, fetchReview. by rewrite Hax.
Qed.

Lemma reviewCode_request_rejected_witness :
  reviewCode (λ _ _, Throw (Rejected "Network Error")) "x"
  = ([SetLoading true; AxiosPost review_url [("code", VStr "x")];
      ConsoleError "Failed to fetch review:" (Rejected "Network Error");
      SetReview (VStr review_failed); SetLoading false], Normal tt).
Proof.
  by apply (reviewCode_request_rejected
              (λ _ _, Throw (Rejected "Network Error")) "x").
Defined.

(** A reply whose text cannot be serialized is handled like a rejected
    request: on a body that reaches itself the run ends with the error
    text, not with an exception. *)
Theorem reviewCode_unserializable
    (axios : string → list (string * value) → completion (heap * value))
    code h response text e :
  axios review_url [("code", VStr code)] = Normal (h, response) →
  reviewText h response = Normal text →
  typeof text ≠ "string" →
  JSON_stringify_space h text 2 = Throw e →
  reviewCode axios code
  = ([SetLoading true; AxiosPost review_url [("code", VStr code)];
      ConsoleError "Failed to fetch review:" e;
      SetReview (VStr review_failed); SetLoading false], Normal tt).
Proof.
  intros Hax Htext Hty Hthrow.
  unfold reviewCode, fetchReview. rewrite Hax. simpl. rewrite Htext. simpl.
  unfold rendered. destruct (decide _); [done|]. by rewrite Hthrow.
Qed.

Lemma reviewCode_unserializable_witness :
  reviewCode (λ _ _, Normal (reply_circular, VRef 0)) "x"
  = ([SetLoading true; AxiosPost review_url [("code", VStr "x")];
      ConsoleError "Failed to fetch review:" TypeError_cyclic;
      SetReview (VStr review_failed); SetLoading false], Normal tt).
Proof.
  apply (reviewCode_unserializable _ "x" reply_circular (VRef 0) (VRef 2));
    [reflexivity|vm_compute; reflexivity|done|vm_compute; reflexivity].
Defined.

(** A reply without a body, or with a null one, clears the review: the
    empty string is stored and no error is reported. *)
Theorem reviewCode_empty_body
    (axios : string → list (string * value) → completion (heap * value))
    code h response :
  axios review_url [("code", VStr code)] = Normal (h, response) →
  nullish response = true
  ∨ (∃ data, Get h response "data" = Normal data ∧ nullish data = true) →
  reviewCode axios code
  = ([SetLoading true; AxiosPost review_url [("code", VStr code)];
      SetReview (VStr ""); SetLoading false], Normal tt).
Proof.
  intros Hax Hempty.
  assert (fetchReview axios code = Normal (VStr "")) as Hfetch.
  { unfold fetchReview. rewrite Hax. simpl. unfold reviewText, optChain.
    destruct Hempty as [->|(data & Hdata & Hnd)]; [done|].
    destruct (nullish response) eqn:Hnr; [done|].
    rewrite Hdata. simpl. by rewrite Hnd. }
  unfold reviewCode. by rewrite Hfetch.
Qed.

Lemma reviewCode_empty_body_witness :
  reviewCode (λ _ _, Normal (reply_bare VNull, VRef 0)) "x"
  = ([SetLoading true; AxiosPost review_url [("code", VStr "x")];
      SetReview (VStr ""); SetLoading false], Normal tt).
Proof.
  apply (reviewCode_empty_body _ "x" (reply_bare VNull) (VRef 0));
    [reflexivity|].
  right. exists VNull. split; [vm_compute; reflexivity|done].
Defined.

(** * The controller *)

Lemma responses_Service (tr : list event) : responses (Service <$> tr) = [].
Proof. by induction tr. Qed.

(** The responses of a run that got past the first guard. *)
Lemma getResponse_responses
    (sdk : value → completion (heap * value)) prompt :
  Boolean prompt = true →
  responses (getResponse sdk prompt).1
  = match (generateContent sdk prompt).2 with
    | Normal response =>
        [{| status := 200; body := [("response", response)] |}]
    | _ => []
    end.
Proof.
  intros Hb. unfold getResponse. rewrite Hb. simpl.
  destruct (generateContent sdk prompt).2; simpl;
    [|apply responses_Service..].
  unfold responses. rewrite omap_app. fold (responses (Service <$>
    (generateContent sdk prompt).1)). by rewrite responses_Service.
Qed.

(** A missing or empty prompt is answered with 400 and the message, and
    the service is not entered; any other prompt is never answered so. *)
Theorem getResponse_prompt_required
    (sdk : value → completion (heap * value)) prompt :
  (Boolean prompt = false
   ↔ getResponse sdk prompt = ([Respond prompt_required], Normal tt))
  ∧ (Boolean prompt = true →
     prompt_required ∉ responses (getResponse sdk prompt).1).
Proof.
  assert (Boolean prompt = true →
          prompt_required ∉ responses (getResponse sdk prompt).1) as Hnot.
  { intros Hb. rewrite (getResponse_responses sdk prompt Hb).
    destruct (generateContent sdk prompt).2;
      [|by intros ?%elem_of_nil..].
    intros [?|?%elem_of_nil]%elem_of_cons; done. }
  split; [|done]. split.
  - intros Hb. unfold getResponse. by rewrite Hb.
  - intros Hrun. destruct (Boolean prompt) eqn:Hb; [|done].
    destruct (Hnot eq_refl). rewrite Hrun. left.
Qed.

(** The two guards differ.  A prompt that is truthy without being a
    string, such as the array of a repeated query parameter, passes the
    controller and is refused by the service: the handler rejects with
    MissingInput, and neither a response nor a call of the model is made. *)
Theorem getResponse_non_string_prompt
    (sdk : value → completion (heap * value)) prompt :
  Boolean prompt = true →
  typeof prompt ≠ "string" →
  getResponse sdk prompt = ([], Throw MissingInput).
Proof.
  intros Hb Hty. unfold getResponse. rewrite Hb. simpl.
  by rewrite (generateContent_invalid sdk prompt)
    by (apply invalid_spec; by right).
Qed.

Lemma getResponse_non_string_prompt_witness :
  getResponse sdk_answers (VRef 0) = ([], Throw MissingInput).
Proof. by apply (getResponse_non_string_prompt sdk_answers (VRef 0)). Defined.

(** For a non-empty string prompt and a well-formed answer the handler
    sends one response, with status 200 and the body [{ response: r }]
    where [r] is the string of the service, after one call of the model
    with the prompt. *)
Theorem getResponse_sends_review
    (sdk : value → completion (heap * value)) s h result :
  s ≠ "" →
  sdk (VStr s) = Normal (h, result) →
  well_formed h result →
  ∃ r, normalize h result = Normal (VStr r)
       ∧ (getResponse sdk (VStr s)).2 = Normal tt
       ∧ responses (getResponse sdk (VStr s)).1
         = [{| status := 200; body := [("response", VStr r)] |}]
       ∧ modelCalls (serviceEvents (getResponse sdk (VStr s)).1) = [VStr s].
Proof.
  intros Hs Hsdk Hwf.
  destruct (generateContent_resolves_with_logged_string sdk s h result
              Hs Hsdk Hwf) as (r & Hr & Hrun).
  exists r. split; [done|]. unfold getResponse.
  rewrite (Boolean_nonempty s Hs). simpl. by rewrite Hrun.
Qed.

Lemma getResponse_sends_review_witness :
  ∃ r, normalize looks_good (VRef 0) = Normal (VStr r)
       ∧ (getResponse sdk_answers (VStr "hi")).2 = Normal tt
       ∧ responses (getResponse sdk_answers (VStr "hi")).1
         = [{| status := 200; body := [("response", VStr r)] |}]
       ∧ modelCalls (serviceEvents (getResponse sdk_answers (VStr "hi")).1)
         = [VStr "hi"].
Proof.
  apply (getResponse_sends_review sdk_answers "hi" looks_good (VRef 0));
    [done|done|by_evaluation].
Defined.

(** The handler catches nothing: when the service throws, the rejection
    of the model included, the handler rejects with the same error and no
    response is sent. *)
Theorem getResponse_service_throws
    (sdk : value → completion (heap * value)) prompt e :
  Boolean prompt = true →
  (generateContent sdk prompt).2 = Throw e →
  (getResponse sdk prompt).2 = Throw e
  ∧ responses (getResponse sdk prompt).1 = [].
Proof.
  intros Hb Hthrow. unfold getResponse. rewrite Hb. simpl. rewrite Hthrow.
  split; [done|]. apply responses_Service.
Qed.

Lemma getResponse_service_throws_witness :
  (getResponse sdk_rejects (VStr "hi")).2 = Throw (Rejected "quota")
  ∧ responses (getResponse sdk_rejects (VStr "hi")).1 = [].
Proof.
  by apply (getResponse_service_throws sdk_rejects (VStr "hi")).
Defined.
